(** * bugview (jirapub): a read-only HTML gateway in front of JIRA

    Shallow embedding of the request handlers and formatters of the
    service, and the properties of its specification.

    The repository holds three near-identical revisions of the service:
    - the templated revision ([mod_ent], [TEMPLATES], configured label),
      which the specification calls canonical; it is embedded at top level;
    - [jirapub.js] (inline HTML, no entity encoding), in [Module Inline];
    - the oldest revision (single route, label ['public'], split on CR LF
      only), in [Module Legacy]. *)

From Stdlib Require Import NArith ZArith String Ascii List Lia Bool.
From stdpp Require Import base option list gmap.

Local Open Scope N_scope.

#[local] Arguments N.eqb : simpl never.
#[local] Arguments N.leb : simpl never.
#[local] Arguments N.ltb : simpl never.

(** ** JavaScript strings

    A JavaScript string is a finite sequence of UTF-16 code units; [length]
    is the number of code units. *)

Abbreviation jsstring := (list N).

(** String literals of the source (all of them ASCII). *)
Definition lit (s : string) : jsstring :=
  map N_of_ascii (list_ascii_of_string s).

Arguments lit : simpl never.

Definition LF : jsstring := [10].
Definition CR : jsstring := [13].
Definition DQ : jsstring := [34].

(** [line.match(/^p/)] for a literal [p]: is [p] a prefix of [s]? *)
Fixpoint starts_with (p s : jsstring) : bool :=
  match p, s with
  | [], _ => true
  | _ :: _, [] => false
  | a :: p', b :: s' => (a =? b) && starts_with p' s'
  end.

(** Match length at the head of [s] of the separators used with [split]
    (0: no match here; neither separator matches the empty string). In
    [/\r?\n/] the optional CR is tried first. *)
Definition re_crlf_opt (s : jsstring) : nat :=   (* /\r?\n/ *)
  if starts_with (CR ++ LF) s then 2%nat
  else if starts_with LF s then 1%nat
  else 0%nat.

Definition re_crlf (s : jsstring) : nat :=       (* /\r\n/ *)
  if starts_with (CR ++ LF) s then 2%nat else 0%nat.

Definition cons_head (c : N) (ls : list jsstring) : list jsstring :=
  match ls with
  | [] => [[c]]
  | l :: ls' => (c :: l) :: ls'
  end.

(** [String.prototype.split(separator)] without a limit: scan left to right;
    at a match close the current piece and resume after the match. The empty
    string gives one empty piece. [skip] counts the code units of a matched
    separator still to be consumed. *)
Fixpoint split_from (sep : jsstring -> nat) (skip : nat) (s : jsstring)
  : list jsstring :=
  match s with
  | [] => [[]]
  | c :: rest =>
      match skip with
      | S k => split_from sep k rest
      | O =>
          match sep s with
          | O => cons_head c (split_from sep 0 rest)
          | S k => [] :: split_from sep k rest
          end
      end
  end.

Definition split (sep : jsstring -> nat) (s : jsstring) : list jsstring :=
  split_from sep 0 s.

(** Replacement-text expansion of [String.prototype.replace] for a pattern
    without capture groups: [$$] is a dollar sign, [$&] the matched text,
    [$`] the text before the match, [$'] the text after it; any other use of
    [$] stands for itself. *)
Fixpoint get_substitution (matched before after repl : jsstring) : jsstring :=
  match repl with
  | [] => []
  | c :: r =>
      if c =? 36 then
        match r with
        | d :: r' =>
            if d =? 36 then 36 :: get_substitution matched before after r'
            else if d =? 38 then matched ++ get_substitution matched before after r'
            else if d =? 96 then before ++ get_substitution matched before after r'
            else if d =? 39 then after ++ get_substitution matched before after r'
            else c :: get_substitution matched before after r
        | [] => [c]
        end
      else c :: get_substitution matched before after r
  end.

(** [str.replace(/pat/g, repl)] for a non-empty literal [pat]: every
    non-overlapping occurrence, found left to right, is replaced by the
    expansion of [repl]. [before] is the part of [str] already scanned and
    [skip] the number of code units of the current match left to drop. *)
Fixpoint replace_from (pat repl : jsstring) (skip : nat) (before s : jsstring)
  : jsstring :=
  match s with
  | [] => []
  | c :: rest =>
      match skip with
      | S k => replace_from pat repl k (before ++ [c]) rest
      | O =>
          if starts_with pat s
          then get_substitution pat before (drop (length pat) s) repl
                 ++ replace_from pat repl (length pat - 1) (before ++ [c]) rest
          else c :: replace_from pat repl 0 (before ++ [c]) rest
      end
  end.

Definition replace (pat repl str : jsstring) : jsstring :=
  replace_from pat repl 0 [] str.

(** UTF-8 encoding of a string, as written to the socket by
    [res.write(out)]: a surrogate pair is one code point of four bytes, a lone
    surrogate is replaced by U+FFFD. *)
Definition is_high_surrogate (c : N) : bool := (0xD800 <=? c) && (c <=? 0xDBFF).
Definition is_low_surrogate (c : N) : bool := (0xDC00 <=? c) && (c <=? 0xDFFF).

Definition utf8_code_point (cp : N) : list N :=
  if cp <? 0x80 then [cp]
  else if cp <? 0x800 then
    [N.lor 0xC0 (N.shiftr cp 6); N.lor 0x80 (N.land cp 0x3F)]
  else if cp <? 0x10000 then
    [N.lor 0xE0 (N.shiftr cp 12);
     N.lor 0x80 (N.land (N.shiftr cp 6) 0x3F);
     N.lor 0x80 (N.land cp 0x3F)]
  else
    [N.lor 0xF0 (N.shiftr cp 18);
     N.lor 0x80 (N.land (N.shiftr cp 12) 0x3F);
     N.lor 0x80 (N.land (N.shiftr cp 6) 0x3F);
     N.lor 0x80 (N.land cp 0x3F)].

Fixpoint utf8_encode (s : jsstring) : list N :=
  match s with
  | [] => []
  | c :: rest =>
      if is_high_surrogate c then
        match rest with
        | d :: rest' =>
            if is_low_surrogate d
            then utf8_code_point
                   (0x10000 + N.shiftl (c - 0xD800) 10 + (d - 0xDC00))
                   ++ utf8_encode rest'
            else utf8_code_point 0xFFFD ++ utf8_encode rest
        | [] => utf8_code_point 0xFFFD
        end
      else if is_low_surrogate c then utf8_code_point 0xFFFD ++ utf8_encode rest
      else utf8_code_point c ++ utf8_encode rest
  end.

(** [Buffer.byteLength(s, 'utf8')] *)
Definition byte_length (s : jsstring) : nat := length (utf8_encode s).

(** ** The issue-key pattern [/^[A-Z]+-[0-9]+$/] *)

Definition is_upper (c : N) : bool := (65 <=? c) && (c <=? 90).
Definition is_digit (c : N) : bool := (48 <=? c) && (c <=? 57).

(** [[0-9]+$] *)
Fixpoint re_digits (s : jsstring) : bool :=
  match s with
  | [] => false
  | [c] => is_digit c
  | c :: r => is_digit c && re_digits r
  end.

(** [[A-Z]*-[0-9]+$]; since [-] is not a capital letter the greedy scan
    never has to backtrack. *)
Fixpoint re_key_rest (s : jsstring) : bool :=
  match s with
  | [] => false
  | c :: r => if is_upper c then re_key_rest r else (c =? 45) && re_digits r
  end.

Definition re_issue_key (s : jsstring) : bool :=
  match s with
  | [] => false
  | c :: r => is_upper c && re_key_rest r
  end.

(** ** Escaped HTML text

    The characters that [mod_ent.encode] must not leave in its output, and
    the shape of an escaped text: ordinary characters and character
    references [&name;] or [&#number;]. *)

Definition html_special (c : N) : bool :=
  (c =? 38) || (c =? 60) || (c =? 62) || (c =? 34) || (c =? 39).

Definition is_ref_char (c : N) : bool :=
  (c =? 35) || is_digit c || is_upper c || ((97 <=? c) && (c <=? 122)).

(** [escaped_from in_ref n s]: [s] continues an escaped text; [in_ref] tells
    whether a reference is open and [n] counts its characters so far. *)
Fixpoint escaped_from (in_ref : bool) (n : nat) (s : jsstring) : bool :=
  match s with
  | [] => negb in_ref
  | c :: r =>
      if in_ref then
        if c =? 59 then negb (Nat.eqb n 0) && escaped_from false 0 r
        else is_ref_char c && escaped_from true (S n) r
      else if c =? 38 then escaped_from true 0 r
      else negb (html_special c) && escaped_from false 0 r
  end.

Definition is_escaped_text (s : jsstring) : bool := escaped_from false 0 s.

(** Decimal digits of a number, most significant first. *)
Fixpoint decimal_fuel (fuel : nat) (n : N) : jsstring :=
  match fuel with
  | O => [48 + n mod 10]
  | S f => if n <? 10 then [48 + n]
           else decimal_fuel f (n / 10) ++ [48 + n mod 10]
  end.

Definition decimal (n : N) : jsstring := decimal_fuel (N.to_nat (N.log2 n)) n.

(** A model of [encode] of the npm package [ent] producing numeric
    references (the default of its later versions): control characters,
    everything from DEL upwards and the five special characters become
    numeric references, by code point. The handlers are parametric in the
    encoder; this model instantiates them in examples. *)
Definition ent_reference (cp : N) : jsstring :=
  lit "&#" ++ decimal cp ++ lit ";".

Definition ent_encode_code_point (cp : N) : jsstring :=
  if (cp <? 32) || (127 <=? cp) || html_special cp
  then ent_reference cp
  else [cp].

Fixpoint ent_encode (s : jsstring) : jsstring :=
  match s with
  | [] => []
  | c :: rest =>
      if is_high_surrogate c then
        match rest with
        | d :: rest' =>
            if is_low_surrogate d
            then ent_reference
                   (0x10000 + N.shiftl (c - 0xD800) 10 + (d - 0xDC00))
                   ++ ent_encode rest'
            else ent_reference c ++ ent_encode rest
        | [] => ent_reference c
        end
      else ent_encode_code_point c ++ ent_encode rest
  end.

(** ** Occurrences of a literal in a string *)

Fixpoint count_occ_of (p s : jsstring) : nat :=
  match s with
  | [] => 0
  | _ :: rest => (if starts_with p s then 1 else 0) + count_occ_of p rest
  end%nat.

(** ** The data model: JSON documents returned by JIRA *)

(** A property of a JSON object: missing ([undefined]), [null], or a value
    of the expected type. *)
Inductive maybe (A : Type) : Type :=
| Undefined
| Null
| Val (a : A).
Arguments Undefined {A}.
Arguments Null {A}.
Arguments Val {A} a.

(** Truthiness of an object or array property: any object is truthy. *)
Definition truthy {A} (m : maybe A) : option A :=
  match m with
  | Val a => Some a
  | _ => None
  end.

(** Truthiness of a string property: the empty string is falsy. *)
Definition truthy_string (m : maybe jsstring) : option jsstring :=
  match m with
  | Val (c :: s) => Some (c :: s)
  | _ => None
  end.

(** String concatenation with a string-valued property. *)
Definition to_string (m : maybe jsstring) : jsstring :=
  match m with
  | Undefined => lit "undefined"
  | Null => lit "null"
  | Val s => s
  end.

Module Resolution.
Record t := { name : jsstring; description : jsstring }.
End Resolution.

Module FixVersion.
Record t := { name : jsstring; releaseDate : maybe jsstring }.
End FixVersion.

Module Author.
Record t := { displayName : jsstring }.
End Author.

Module Comment.
Record t := {
  author : Author.t;
  created : jsstring;
  updated : maybe jsstring;
  body : jsstring
}.
End Comment.

Module CommentPage.
Record t := { total : Z; maxResults : Z; comments : list Comment.t }.
End CommentPage.

Module Fields.
Record t := {
  summary : jsstring;
  labels : maybe (list jsstring);
  resolution : maybe Resolution.t;
  resolutiondate : maybe jsstring;
  fixVersions : maybe (list FixVersion.t);
  description : maybe jsstring;
  comment : maybe CommentPage.t
}.
End Fields.

Module Issue.
Record t := { key : jsstring; fields : maybe Fields.t }.
End Issue.

(** The documents of the search endpoint, asked for [fields=summary]. *)
Module SummaryFields.
Record t := { summary : jsstring }.
End SummaryFields.

Module IssueSummary.
Record t := { key : jsstring; fields : SummaryFields.t }.
End IssueSummary.

Module SearchResults.
Record t := { issues : list IssueSummary.t }.
End SearchResults.

(** What the JSON client hands to its callback: [(_err, _req, _res, obj)]. *)
Module JiraError.
Record t := { name : jsstring }.
End JiraError.

Module Reply.
Record t (A : Type) := { err : maybe JiraError.t; obj : maybe A }.
Arguments err {A} _.
Arguments obj {A} _.
End Reply.

(** The JSON client [JIRA]: the reply to a [get] of a URL, by endpoint. *)
Module Jira.
Record t := {
  issue : jsstring -> Reply.t Issue.t;
  search : jsstring -> Reply.t SearchResults.t
}.
End Jira.

Module Url.
Record t := { base : jsstring; path : jsstring }.
End Url.

Module Config.
Record t := {
  username : jsstring;
  password : jsstring;
  url : Url.t;
  label : jsstring;
  port : Z
}.
End Config.

Module Request.
Record t := { params_key : maybe jsstring }.
End Request.

(** ** Effects of a handler

    A handler mutates the response object, writes log records, calls the
    JSON client and finally calls [next]; it may also throw. [World.t] holds
    what is observable of that, and [M] is the state and exception monad over
    it: the state survives an exception. *)

Inductive exn := RangeError | AssertionError | TypeError.

(** [LOG] is the global logger, [req_log] the logger of the request (or its
    child carrying the request's details). *)
Inductive logger := LOG | req_log.
Inductive level := info | error.

Module LogRecord.
Record t := { from : logger; lvl : level; msg : jsstring }.
End LogRecord.

Module Response.
Record t := {
  contentType : option jsstring;
  contentLength : option nat;
  statusCode : option Z;
  body : option jsstring;
  ended : bool
}.
Definition empty : t :=
  {| contentType := None; contentLength := None; statusCode := None;
     body := None; ended := false |}.
End Response.

Module World.
Record t := {
  res : Response.t;
  logged : list LogRecord.t;       (* oldest first *)
  requested : list jsstring;       (* URLs passed to JIRA.get, oldest first *)
  nexts : list (option bool)       (* arguments of the calls of next *)
}.
Definition init : t :=
  {| res := Response.empty; logged := []; requested := []; nexts := [] |}.
End World.

Definition M (A : Type) : Type := World.t -> World.t * (exn + A).

#[global] Instance M_ret : MRet M := λ A (a : A) w, (w, inr a).
#[global] Instance M_bind : MBind M := λ A B (f : A -> M B) (m : M A) w,
  match m w with
  | (w', inr a) => f a w'
  | (w', inl e) => (w', inl e)
  end.

Definition throw {A} (e : exn) : M A := λ w, (w, inl e).

Definition update_res (f : Response.t -> Response.t) : M unit := λ w,
  ({| World.res := f (World.res w); World.logged := World.logged w;
      World.requested := World.requested w; World.nexts := World.nexts w |},
   inr tt).

Definition write_log (l : logger) (v : level) (m : jsstring) : M unit := λ w,
  ({| World.res := World.res w;
      World.logged := World.logged w ++
        [{| LogRecord.from := l; LogRecord.lvl := v; LogRecord.msg := m |}];
      World.requested := World.requested w; World.nexts := World.nexts w |},
   inr tt).

(** [next()] is [next None], [next(false)] is [next (Some false)]. *)
Definition next (arg : option bool) : M unit := λ w,
  ({| World.res := World.res w; World.logged := World.logged w;
      World.requested := World.requested w;
      World.nexts := World.nexts w ++ [arg] |},
   inr tt).

(** [JIRA.get(url, callback)]: the request is recorded and the callback's
    arguments are the value of the computation. *)
Definition jira_get {A} (endpoint : jsstring -> Reply.t A) (url : jsstring)
  : M (Reply.t A) := λ w,
  ({| World.res := World.res w; World.logged := World.logged w;
      World.requested := World.requested w ++ [url];
      World.nexts := World.nexts w |},
   inr (endpoint url)).

(** [res.send(code)] and [res.send(code, body)] *)
Definition res_send (code : Z) (body : option jsstring) : M unit :=
  update_res (λ r,
    {| Response.contentType := Response.contentType r;
       Response.contentLength := Response.contentLength r;
       Response.statusCode := Some code;
       Response.body := body;
       Response.ended := true |}).

(** [res.contentType = v] *)
Definition res_set_contentType (v : jsstring) : M unit :=
  update_res (λ r,
    {| Response.contentType := Some v;
       Response.contentLength := Response.contentLength r;
       Response.statusCode := Response.statusCode r;
       Response.body := Response.body r;
       Response.ended := Response.ended r |}).

(** [res.contentLength = n] *)
Definition res_set_contentLength (n : nat) : M unit :=
  update_res (λ r,
    {| Response.contentType := Response.contentType r;
       Response.contentLength := Some n;
       Response.statusCode := Response.statusCode r;
       Response.body := Response.body r;
       Response.ended := Response.ended r |}).

(** [res.writeHead(code)] *)
Definition res_writeHead (code : Z) : M unit :=
  update_res (λ r,
    {| Response.contentType := Response.contentType r;
       Response.contentLength := Response.contentLength r;
       Response.statusCode := Some code;
       Response.body := Response.body r;
       Response.ended := Response.ended r |}).

(** [res.write(data)] *)
Definition res_write (data : jsstring) : M unit :=
  update_res (λ r,
    {| Response.contentType := Response.contentType r;
       Response.contentLength := Response.contentLength r;
       Response.statusCode := Response.statusCode r;
       Response.body := Some (default [] (Response.body r) ++ data);
       Response.ended := Response.ended r |}).

(** [res.end()] *)
Definition res_end : M unit :=
  update_res (λ r,
    {| Response.contentType := Response.contentType r;
       Response.contentLength := Response.contentLength r;
       Response.statusCode := Response.statusCode r;
       Response.body := Response.body r;
       Response.ended := true |}).

(** Strict equality of strings, and [Array.prototype.indexOf] on an array of
    strings (-1 when no element is equal). *)
Fixpoint str_eqb (a b : jsstring) : bool :=
  match a, b with
  | [], [] => true
  | x :: a', y :: b' => (x =? y) && str_eqb a' b'
  | _, _ => false
  end.

Fixpoint indexOf_from (i : Z) (arr : list jsstring) (x : jsstring) : Z :=
  match arr with
  | [] => (-1)%Z
  | y :: arr' => if str_eqb y x then i else indexOf_from (i + 1)%Z arr' x
  end.

Definition indexOf (arr : list jsstring) (x : jsstring) : Z :=
  indexOf_from 0%Z arr x.

(** A [Date] object: its ISO rendering, or [None] for an invalid date. *)
Definition date := option jsstring.

Definition toISOString (d : date) : M jsstring :=
  match d with
  | Some iso => mret iso
  | None => throw RangeError
  end.

(** ** Formatter

    [format_markup] and [format_issue] are the same in the three revisions but
    for the separator given to [split] and the encoding of a line. *)

Definition pre_open : jsstring :=
  lit "<pre style=" ++ DQ ++ lit "border: 2px solid black;"
    ++ lit "font-family: Menlo, Courier, "
    ++ lit "Lucida Console, Monospace;"
    ++ lit "background-color: #eeeeee;" ++ DQ ++ lit ">" ++ LF.

Definition pre_close : jsstring := lit "</pre>" ++ LF.

(** [line.match(/^{noformat/) || line.match(/^{code/)] *)
Definition is_fence (line : jsstring) : bool :=
  starts_with (lit "{noformat") line || starts_with (lit "{code") line.

Section Formatter.
(** the regular expression of [desc.split] *)
Variable separator : jsstring -> nat.
(** [mod_ent.encode]; the identity where a line is appended as it is *)
Variable encode : jsstring -> jsstring.
(** [new Date(s)] for a string [s] *)
Variable Date_parse : jsstring -> date.

(** The loop of [format_markup] from line [i] on, with the values of
    [fmton] and [out] on entry. *)
Fixpoint format_markup_lines (lines : list jsstring) (fmton : bool)
    (out : jsstring) : jsstring :=
  match lines with
  | [] => out
  | line :: lines' =>
      if is_fence line then
        let out := if fmton then out ++ pre_close else out ++ pre_open in
        format_markup_lines lines' (negb fmton) out
      else
        let out := out ++ encode line in
        let out := if fmton then out ++ LF else out ++ lit "<br>" ++ LF in
        format_markup_lines lines' fmton out
  end.

Definition format_markup (desc : jsstring) : jsstring :=
  let out := [] in
  let lines := split separator desc in
  let fmton := false in
  format_markup_lines lines fmton out.

(** [new Date(v)] for a property [v]: a missing property gives an invalid
    date, [null] the epoch. *)
Definition new_Date (v : maybe jsstring) : date :=
  match v with
  | Undefined => None
  | Null => Some (lit "1970-01-01T00:00:00.000Z")
  | Val s => Date_parse s
  end.

(** The loop over [issue.fields.fixVersions]. *)
Fixpoint format_fix_versions (fvs : list FixVersion.t) (out : jsstring)
  : jsstring :=
  match fvs with
  | [] => out
  | fv :: fvs' =>
      format_fix_versions fvs'
        (out ++ lit "<p><b>" ++ FixVersion.name fv
             ++ lit "</b> (Release Date: "
             ++ to_string (FixVersion.releaseDate fv) ++ lit ")</p>" ++ LF)
  end.

(** The loop over [c.comments], with the values of [dark] and [out] on
    entry. *)
Fixpoint format_comments (coms : list Comment.t) (dark : bool)
    (out : jsstring) : M jsstring :=
  match coms with
  | [] => mret out
  | com :: coms' =>
      let cdtc := Date_parse (Comment.created com) in
      let out := out ++ lit "<div style=" ++ DQ ++ lit "background-color: "
                     ++ (if dark then lit "#DDDDDD" else lit "#EEEEEE")
                     ++ lit ";" ++ DQ ++ lit ">" ++ LF in
      let out := out ++ lit "<b>" in
      let out := out ++ lit "Comment by "
                     ++ Author.displayName (Comment.author com)
                     ++ lit "<br>" ++ LF in
      created_at ← toISOString cdtc;
      let out := out ++ lit "Created at " ++ created_at ++ lit "<br>" ++ LF in
      out ← match truthy_string (Comment.updated com) with
            | Some updated =>
                if negb (str_eqb updated (Comment.created com)) then
                  updated_at ← toISOString (Date_parse updated);
                  mret (out ++ lit "Updated at " ++ updated_at
                            ++ lit "<br>" ++ LF)
                else mret out
            | None => mret out
            end;
      let out := out ++ lit "</b>" in
      let out := out ++ format_markup (Comment.body com) in
      let out := out ++ lit "</div><br>" ++ LF in
      format_comments coms' (negb dark) out
  end.

Definition format_issue (issue : Issue.t) : M jsstring :=
  match truthy (Issue.fields issue) with
  | None => throw TypeError
  | Some fields =>
      let out := lit "<h1>" ++ Issue.key issue ++ lit ": "
                   ++ Fields.summary fields ++ lit "</h1>" ++ LF in
      out ← match truthy (Fields.resolution fields) with
            | Some resolution =>
                let rd := new_Date (Fields.resolutiondate fields) in
                let out := out ++ lit "<h2>Resolution</h2>" ++ LF in
                let out := out ++ lit "<p><b>" ++ Resolution.name resolution
                               ++ lit ":</b> "
                               ++ Resolution.description resolution
                               ++ lit "<br>" ++ LF in
                resolved_at ← toISOString rd;
                mret (out ++ lit "(Resolution Date: " ++ resolved_at
                          ++ lit ")</p>" ++ LF)
            | None => mret out
            end;
      let out :=
        match truthy (Fields.fixVersions fields) with
        | Some (fv :: fvs) =>
            format_fix_versions (fv :: fvs)
              (out ++ lit "<h2>Fix Versions</h2>" ++ LF)
        | _ => out
        end in
      let out :=
        match truthy_string (Fields.description fields) with
        | Some description =>
            let out := out ++ lit "<h2>Description</h2>" ++ LF in
            let out := out ++ lit "<div>" in
            let out := out ++ format_markup description in
            out ++ lit "</div>" ++ LF
        | None => out
        end in
      match truthy (Fields.comment fields) with
      | Some c =>
          let out := out ++ lit "<h2>Comments</h2>" ++ LF in
          (if negb (CommentPage.maxResults c =? CommentPage.total c)%Z
           then write_log LOG error
                  (lit "comment maxResults and total not equal for issue")
           else mret tt);;
          let dark := false in
          format_comments (CommentPage.comments c) dark out
      | None => mret out
      end
  end.
End Formatter.

(** The guard [!issue || !issue.fields || !issue.fields.labels] of the
    handlers: when it lets the document through, the issue and its labels. *)
Definition expected_format (obj : maybe Issue.t)
  : option (Issue.t * list jsstring) :=
  match truthy obj with
  | None => None
  | Some issue =>
      match truthy (Issue.fields issue) with
      | None => None
      | Some fields =>
          match truthy (Fields.labels fields) with
          | None => None
          | Some labels => Some (issue, labels)
          end
      end
  end.

(** ** Route handlers of the templated revision *)

Section Handlers.
Variable encode : jsstring -> jsstring.
Variable Date_parse : jsstring -> date.
Variable CONFIG : Config.t.
(** the files of the [templates] directory, by name without extension *)
Variable TEMPLATES : gmap jsstring jsstring.
Variable JIRA : Jira.t.

Definition template (nam : jsstring) : M jsstring :=
  match TEMPLATES !! nam with
  | Some t => mret t
  | None => throw AssertionError
  end.

(** The table rows of the issue index. *)
Fixpoint index_rows (issues : list IssueSummary.t) (tbody : jsstring)
  : jsstring :=
  match issues with
  | [] => tbody
  | issue :: issues' =>
      index_rows issues'
        (tbody ++ lit "<tr><td><a href=" ++ DQ ++ IssueSummary.key issue
               ++ DQ ++ lit ">" ++ IssueSummary.key issue
               ++ lit "</a></td><td>"
               ++ SummaryFields.summary (IssueSummary.fields issue)
               ++ lit "</td></tr>" ++ LF)
  end.

Definition handle_issue_index (req : Request.t) : M unit :=
  let url := Url.path (Config.url CONFIG)
               ++ lit "/search?jql=labels%20%3D%20%22"
               ++ Config.label CONFIG ++ lit "%22&fields=summary" in
  reply ← jira_get (Jira.search JIRA) url;
  match truthy (Reply.err reply) with
  | Some _err =>
      write_log req_log error (lit "error communicating with JIRA");;
      res_send 500 None;;
      next (Some false)
  | None =>
      write_log req_log info (lit "serving issue index");;
      container ← template (lit "issue_index");
      let tbody := [] in
      tbody ← match truthy (Reply.obj reply) with
              | Some results => mret (index_rows (SearchResults.issues results) tbody)
              | None => throw TypeError
              end;
      let container := replace (lit "%%TABLE_BODY%%") tbody container in
      out ← template (lit "primary");
      let out := replace (lit "%%CONTAINER%%") container out in
      res_set_contentType (lit "text/html");;
      res_set_contentLength (length out);;
      res_writeHead 200;;
      res_write out;;
      res_end;;
      next None
  end.

(** The branches of [handle_issue] that refuse the request. *)
Definition invalid_key : M unit :=
  write_log req_log error (lit "invalid " ++ DQ ++ lit "key" ++ DQ ++ lit " provided");;
  res_send 400 None;;
  next (Some false).

Definition unexpected_format : M unit :=
  write_log req_log error (lit "JIRA issue did not have expected format");;
  res_send 500 None;;
  next (Some false).

(** The callback of [JIRA.get] in [handle_issue]. *)
Definition handle_issue_reply (reply : Reply.t Issue.t) : M unit :=
  match truthy (Reply.err reply) with
  | Some _err =>
      if str_eqb (JiraError.name _err) (lit "NotFoundError") then
        write_log req_log error (lit "could not find issue");;
        res_send 404 (Some (lit "Sorry, that issue does not exist." ++ LF));;
        next (Some false)
      else
        write_log req_log error (lit "error communicating with JIRA");;
        res_send 500 None;;
        next (Some false)
  | None =>
      match expected_format (Reply.obj reply) with
      | None => unexpected_format
      | Some (issue, labels) =>
          if (indexOf labels (Config.label CONFIG) =? -1)%Z then
            write_log req_log error (lit "request for non-public issue");;
            res_send 403 (Some (lit "Sorry, this issue is not public." ++ LF));;
            next (Some false)
          else
            write_log req_log info (lit "serving issue");;
            out ← template (lit "primary");
            page ← format_issue re_crlf_opt encode Date_parse issue;
            let out := replace (lit "%%CONTAINER%%") page out in
            res_set_contentType (lit "text/html");;
            res_set_contentLength (length out);;
            res_writeHead 200;;
            res_write out;;
            res_end;;
            next None
      end
  end.

Definition handle_issue (req : Request.t) : M unit :=
  match truthy_string (Request.params_key req) with
  | None => invalid_key
  | Some key =>
      if negb (re_issue_key key) then invalid_key
      else
        let url := Url.path (Config.url CONFIG) ++ lit "/issue/" ++ key in
        reply ← jira_get (Jira.issue JIRA) url;
        handle_issue_reply reply
  end.
End Handlers.

(** ** The revision with inline HTML ([jirapub.js])

    Lines are appended to the output as they are, and the page is wrapped in
    a fixed [<html><body>] element instead of a template. *)

Module Inline.
Section Handlers.
Variable Date_parse : jsstring -> date.
Variable CONFIG : Config.t.
Variable JIRA : Jira.t.

Definition format_markup (desc : jsstring) : jsstring :=
  format_markup re_crlf_opt (λ line, line) desc.

Definition format_issue (issue : Issue.t) : M jsstring :=
  format_issue re_crlf_opt (λ line, line) Date_parse issue.

Definition handle_issue_reply (reply : Reply.t Issue.t) : M unit :=
  match truthy (Reply.err reply) with
  | Some _err =>
      if str_eqb (JiraError.name _err) (lit "NotFoundError") then
        write_log req_log error (lit "could not find issue");;
        res_send 404 (Some (lit "Sorry, that issue does not exist." ++ LF));;
        next (Some false)
      else
        write_log req_log error (lit "error communicating with JIRA");;
        res_send 500 None;;
        next (Some false)
  | None =>
      match expected_format (Reply.obj reply) with
      | Some (issue, labels) =>
          if (indexOf labels (Config.label CONFIG) =? -1)%Z then
            write_log req_log error (lit "request for non-public issue");;
            res_send 403 (Some (lit "Sorry, this issue is not public." ++ LF));;
            next (Some false)
          else
            write_log req_log info (lit "serving issue");;
            page ← format_issue issue;
            let out := lit "<html><body>" ++ page ++ lit "</body></html>" in
            res_set_contentType (lit "text/html");;
            res_set_contentLength (length out);;
            res_writeHead 200;;
            res_write out;;
            res_end;;
            next None
      | None =>
          write_log req_log error (lit "JIRA issue did not have expected format");;
          res_send 500 None;;
          next (Some false)
      end
  end.

Definition handle_issue (req : Request.t) : M unit :=
  match truthy_string (Request.params_key req) with
  | Some key =>
      if re_issue_key key then
        let url := Url.path (Config.url CONFIG) ++ lit "/issue/" ++ key in
        reply ← jira_get (Jira.issue JIRA) url;
        handle_issue_reply reply
      else
        write_log req_log error
          (lit "invalid " ++ DQ ++ lit "key" ++ DQ ++ lit " provided");;
        res_send 400 None;;
        next (Some false)
  | None =>
      write_log req_log error
        (lit "invalid " ++ DQ ++ lit "key" ++ DQ ++ lit " provided");;
      res_send 400 None;;
      next (Some false)
  end.
End Handlers.
End Inline.

(** ** The oldest revision

    One route; the description is split on CR LF only, lines are appended as
    they are, and the label required of an issue is the literal [public]. *)

Module Legacy.
Section Handlers.
Variable Date_parse : jsstring -> date.
Variable CONFIG : Config.t.
Variable JIRA : Jira.t.

Definition format_markup (desc : jsstring) : jsstring :=
  format_markup re_crlf (λ line, line) desc.

Definition format_issue (issue : Issue.t) : M jsstring :=
  format_issue re_crlf (λ line, line) Date_parse issue.

Definition handle_issue_reply (reply : Reply.t Issue.t) : M unit :=
  match truthy (Reply.err reply) with
  | Some _err =>
      if str_eqb (JiraError.name _err) (lit "NotFoundError") then
        write_log req_log error (lit "could not find issue");;
        res_send 404 (Some (lit "Sorry, that issue does not exist." ++ LF));;
        next (Some false)
      else
        write_log req_log error (lit "error communicating with JIRA");;
        res_send 500 None;;
        next (Some false)
  | None =>
      match expected_format (Reply.obj reply) with
      | Some (issue, labels) =>
          if (indexOf labels (lit "public") =? -1)%Z then
            res_send 403 (Some (lit "Sorry, this issue is not public." ++ LF));;
            next (Some false)
          else
            page ← format_issue issue;
            let out := lit "<html><body>" ++ page ++ lit "</body></html>" in
            res_set_contentType (lit "text/html");;
            res_set_contentLength (length out);;
            res_writeHead 200;;
            res_write out;;
            res_end;;
            next None
      | None =>
          write_log req_log error (lit "JIRA issue did not have expected format");;
          res_send 500 None;;
          next (Some false)
      end
  end.

Definition handle_issue (req : Request.t) : M unit :=
  match truthy_string (Request.params_key req) with
  | Some key =>
      if re_issue_key key then
        let url := Url.path (Config.url CONFIG) ++ lit "/issue/" ++ key in
        reply ← jira_get (Jira.issue JIRA) url;
        handle_issue_reply reply
      else
        write_log req_log error
          (lit "invalid " ++ DQ ++ lit "key" ++ DQ ++ lit " provided");;
        res_send 400 None;;
        next (Some false)
  | None =>
      write_log req_log error
        (lit "invalid " ++ DQ ++ lit "key" ++ DQ ++ lit " provided");;
      res_send 400 None;;
      next (Some false)
  end.
End Handlers.
End Legacy.

(** Running a handler on a fresh response. *)
Definition run {A} (m : M A) : World.t * (exn + A) := m World.init.

(** ** Reference definitions, in the words of the specification *)

(** IssueKey: capital letters, a hyphen, digits. *)
Definition IssueKey (s : jsstring) : Prop :=
  ∃ letters digits,
    s = letters ++ 45 :: digits
    ∧ letters ≠ [] ∧ digits ≠ []
    ∧ Forall (λ c, is_upper c = true) letters
    ∧ Forall (λ c, is_digit c = true) digits.

(** [b] contains [a] as a contiguous part. *)
Definition contains (a b : jsstring) : Prop := ∃ x y, b = x ++ a ++ y.

(** The output of the renderer, piece by piece: a fence line gives a tag
    that opens or closes the block, any other line gives its encoding,
    ended by [<br>] and a newline outside a block and by a newline inside. *)
Definition line_end (in_block : bool) : jsstring :=
  if in_block then LF else lit "<br>" ++ LF.

Fixpoint markup_chunks (encode : jsstring -> jsstring) (lines : list jsstring)
    (in_block : bool) : list jsstring :=
  match lines with
  | [] => []
  | line :: lines' =>
      if is_fence line
      then (if in_block then pre_close else pre_open)
             :: markup_chunks encode lines' (negb in_block)
      else (encode line ++ line_end in_block)
             :: markup_chunks encode lines' in_block
  end.

(** Lines outside a block and lines inside a block. *)
Definition br_lines (encode : jsstring -> jsstring) (lines : list jsstring)
  : jsstring :=
  concat (map (λ line, encode line ++ lit "<br>" ++ LF) lines).

Definition pre_lines (encode : jsstring -> jsstring) (lines : list jsstring)
  : jsstring :=
  concat (map (λ line, encode line ++ LF) lines).

(** Number of fence lines, and whether a block is open after some lines. *)
Definition fences (lines : list jsstring) : nat :=
  length (filter (λ line, is_fence line = true) lines).

Definition in_block_after (lines : list jsstring) : bool :=
  Nat.odd (fences lines).

Definition no_fence (lines : list jsstring) : Prop :=
  Forall (λ line, is_fence line = false) lines.

(** The encoder escapes these lines. *)
Definition escapes (encode : jsstring -> jsstring) (lines : list jsstring)
  : Prop :=
  Forall (λ line, is_escaped_text (encode line) = true) lines.

(** A piece of output that ends in a newline. *)
Definition ends_in_newline (chunk : jsstring) : Prop := ∃ a, chunk = a ++ [10].

(** *** The composed page, section by section *)

Section Page.
Variable separator : jsstring -> nat.
Variable encode : jsstring -> jsstring.
Variable Date_parse : jsstring -> date.

(** The rendering of a date; nothing when the date is invalid. *)
Definition iso (d : date) : jsstring := default [] d.

Definition heading (issue : Issue.t) (fields : Fields.t) : jsstring :=
  lit "<h1>" ++ Issue.key issue ++ lit ": " ++ Fields.summary fields
    ++ lit "</h1>" ++ LF.

Definition resolution_html (r : Resolution.t) : jsstring :=
  lit "<p><b>" ++ Resolution.name r ++ lit ":</b> "
    ++ Resolution.description r ++ lit "<br>" ++ LF.

Definition resolution_section (fields : Fields.t) : jsstring :=
  match Fields.resolution fields with
  | Val r =>
      lit "<h2>Resolution</h2>" ++ LF ++ resolution_html r
        ++ lit "(Resolution Date: "
        ++ iso (new_Date Date_parse (Fields.resolutiondate fields))
        ++ lit ")</p>" ++ LF
  | _ => []
  end.

Definition fix_version_html (fv : FixVersion.t) : jsstring :=
  lit "<p><b>" ++ FixVersion.name fv ++ lit "</b> (Release Date: "
    ++ to_string (FixVersion.releaseDate fv) ++ lit ")</p>" ++ LF.

Definition fix_versions_section (fields : Fields.t) : jsstring :=
  match Fields.fixVersions fields with
  | Val (fv :: fvs) =>
      lit "<h2>Fix Versions</h2>" ++ LF
        ++ concat (map fix_version_html (fv :: fvs))
  | _ => []
  end.

Definition description_html (d : jsstring) : jsstring :=
  lit "<div>" ++ format_markup separator encode d ++ lit "</div>" ++ LF.

Definition description_section (fields : Fields.t) : jsstring :=
  match Fields.description fields with
  | Val (c :: d) => lit "<h2>Description</h2>" ++ LF ++ description_html (c :: d)
  | _ => []
  end.

(** A comment shows when it was updated if [updated] is a non-empty string
    other than [created]. *)
Definition shows_update (com : Comment.t) : Prop :=
  ∃ u, Comment.updated com = Val u ∧ u ≠ [] ∧ u ≠ Comment.created com.

Definition updated_line (com : Comment.t) : jsstring :=
  match Comment.updated com with
  | Val (c :: u) =>
      if str_eqb (c :: u) (Comment.created com) then []
      else lit "Updated at " ++ iso (Date_parse (c :: u)) ++ lit "<br>" ++ LF
  | _ => []
  end.

(** The shade of the [i]-th comment, counting from 0: light, dark, light... *)
Definition shade (i : nat) : jsstring :=
  if Nat.even i then lit "#EEEEEE" else lit "#DDDDDD".

Definition comment_author_html (com : Comment.t) : jsstring :=
  lit "Comment by " ++ Author.displayName (Comment.author com)
    ++ lit "<br>" ++ LF.

Definition comment_body_html (com : Comment.t) : jsstring :=
  lit "</b>" ++ format_markup separator encode (Comment.body com)
    ++ lit "</div><br>" ++ LF.

Definition comment_html (i : nat) (com : Comment.t) : jsstring :=
  lit "<div style=" ++ DQ ++ lit "background-color: " ++ shade i
    ++ lit ";" ++ DQ ++ lit ">" ++ LF
    ++ lit "<b>" ++ comment_author_html com
    ++ lit "Created at " ++ iso (Date_parse (Comment.created com))
    ++ lit "<br>" ++ LF
    ++ updated_line com
    ++ comment_body_html com.

Definition comments_html (coms : list Comment.t) : jsstring :=
  concat (imap comment_html coms).

Definition comments_section (fields : Fields.t) : jsstring :=
  match Fields.comment fields with
  | Val c => lit "<h2>Comments</h2>" ++ LF ++ comments_html (CommentPage.comments c)
  | _ => []
  end.

Definition issue_page (issue : Issue.t) (fields : Fields.t) : jsstring :=
  heading issue fields ++ resolution_section fields
    ++ fix_versions_section fields ++ description_section fields
    ++ comments_section fields.

(** Every date that the page shows is valid. *)
Definition comment_dates_valid (com : Comment.t) : Prop :=
  is_Some (Date_parse (Comment.created com))
  ∧ (∀ u, Comment.updated com = Val u → u ≠ [] → u ≠ Comment.created com →
       is_Some (Date_parse u)).

Definition dates_valid (fields : Fields.t) : Prop :=
  (∀ r, Fields.resolution fields = Val r →
     is_Some (new_Date Date_parse (Fields.resolutiondate fields)))
  ∧ (∀ c, Fields.comment fields = Val c →
       Forall comment_dates_valid (CommentPage.comments c)).
End Page.

(** The counts of the comment page disagree. *)
Definition comment_count_mismatch (fields : Fields.t) : bool :=
  match Fields.comment fields with
  | Val c => negb (CommentPage.maxResults c =? CommentPage.total c)%Z
  | _ => false
  end.

(** A row of the issue index. *)
Definition index_row (issue : IssueSummary.t) : jsstring :=
  lit "<tr><td><a href=" ++ DQ ++ IssueSummary.key issue ++ DQ ++ lit ">"
    ++ IssueSummary.key issue ++ lit "</a></td><td>"
    ++ SummaryFields.summary (IssueSummary.fields issue)
    ++ lit "</td></tr>" ++ LF.

(** *** Final states of a request *)

Definition log_record (l : logger) (v : level) (m : jsstring) : LogRecord.t :=
  {| LogRecord.from := l; LogRecord.lvl := v; LogRecord.msg := m |}.

(** The record logged when the counts of the comment page disagree. *)
Definition mismatch_record : LogRecord.t :=
  log_record LOG error (lit "comment maxResults and total not equal for issue").

(** The world after more log records. *)
Definition with_logged (msgs : list LogRecord.t) (w : World.t) : World.t :=
  {| World.res := World.res w; World.logged := World.logged w ++ msgs;
     World.requested := World.requested w; World.nexts := World.nexts w |}.

(** The world after more requests to JIRA. *)
Definition with_requested (urls : list jsstring) (w : World.t) : World.t :=
  {| World.res := World.res w; World.logged := World.logged w;
     World.requested := World.requested w ++ urls; World.nexts := World.nexts w |}.

(** A request answered with [res.send] and [next(false)], after the given
    upstream requests and log records. *)
Definition refused (code : Z) (body : option jsstring)
    (urls : list jsstring) (msgs : list LogRecord.t) : World.t :=
  {| World.res :=
       {| Response.contentType := None; Response.contentLength := None;
          Response.statusCode := Some code; Response.body := body;
          Response.ended := true |};
     World.logged := msgs; World.requested := urls;
     World.nexts := [Some false] |}.

(** A request answered with the page [out]. *)
Definition served (out : jsstring) (urls : list jsstring)
    (msgs : list LogRecord.t) : World.t :=
  {| World.res :=
       {| Response.contentType := Some (lit "text/html");
          Response.contentLength := Some (length out);
          Response.statusCode := Some 200%Z; Response.body := Some out;
          Response.ended := true |};
     World.logged := msgs; World.requested := urls; World.nexts := [None] |}.

Definition issue_url (CONFIG : Config.t) (key : jsstring) : jsstring :=
  Url.path (Config.url CONFIG) ++ lit "/issue/" ++ key.

Definition search_url (CONFIG : Config.t) : jsstring :=
  Url.path (Config.url CONFIG) ++ lit "/search?jql=labels%20%3D%20%22"
    ++ Config.label CONFIG ++ lit "%22&fields=summary".

Definition absent {A} (m : maybe A) : Prop := m = Undefined ∨ m = Null.

(** The document lacks [fields] or [fields.labels] (or is missing itself). *)
Definition lacks_labels (obj : maybe Issue.t) : Prop :=
  absent obj
  ∨ ∃ issue, obj = Val issue
      ∧ (absent (Issue.fields issue)
         ∨ ∃ fields, Issue.fields issue = Val fields
             ∧ absent (Fields.labels fields)).

(** The upstream request succeeded with this document. *)
Definition fetched (JIRA : Jira.t) (CONFIG : Config.t) (key : jsstring)
    (issue : Issue.t) : Prop :=
  absent (Reply.err (Jira.issue JIRA (issue_url CONFIG key)))
  ∧ Reply.obj (Jira.issue JIRA (issue_url CONFIG key)) = Val issue.

Definition invalid_key_record : LogRecord.t :=
  log_record req_log error (lit "invalid " ++ DQ ++ lit "key" ++ DQ ++ lit " provided").

Definition status (result : World.t * (exn + unit)) : option Z :=
  Response.statusCode (World.res (fst result)).

(** *** Example documents *)

Module Example.
Definition CONFIG : Config.t :=
  {| Config.username := lit "bugview"; Config.password := lit "secret";
     Config.url := {| Url.base := lit "https://jira.example.com";
                      Url.path := lit "/rest/api/2" |};
     Config.label := lit "public"; Config.port := 8080%Z |}.

(** A date parser that takes any non-empty string for a date. *)
Definition Date_parse (s : jsstring) : date :=
  match s with
  | [] => None
  | _ => Some s
  end.

(** An issue with the required fields only. *)
Definition bare_fields (summary : jsstring) : Fields.t :=
  {| Fields.summary := summary; Fields.labels := Val [lit "public"];
     Fields.resolution := Undefined; Fields.resolutiondate := Undefined;
     Fields.fixVersions := Undefined; Fields.description := Undefined;
     Fields.comment := Undefined |}.

Definition issue (fields : Fields.t) : Issue.t :=
  {| Issue.key := lit "ABC-1"; Issue.fields := Val fields |}.

Definition fixed : Resolution.t :=
  {| Resolution.name := lit "Fixed"; Resolution.description := lit "<i>done</i>" |}.

(** Resolved, but without a resolution date. *)
Definition resolved_undated : Fields.t :=
  {| Fields.summary := lit "Summary"; Fields.labels := Val [lit "public"];
     Fields.resolution := Val fixed; Fields.resolutiondate := Undefined;
     Fields.fixVersions := Undefined; Fields.description := Undefined;
     Fields.comment := Undefined |}.

(** The fix versions are an empty array and the description an empty
    string. *)
Definition empty_fields : Fields.t :=
  {| Fields.summary := lit "Summary"; Fields.labels := Val [lit "public"];
     Fields.resolution := Null; Fields.resolutiondate := Null;
     Fields.fixVersions := Val []; Fields.description := Val [];
     Fields.comment := Undefined |}.

Definition comment (who created : jsstring) (updated : maybe jsstring)
    (body : jsstring) : Comment.t :=
  {| Comment.author := {| Author.displayName := who |};
     Comment.created := created; Comment.updated := updated;
     Comment.body := body |}.

(** Six comments exist and five were asked for; two are in the document. *)
Definition comments : CommentPage.t :=
  {| CommentPage.total := 6; CommentPage.maxResults := 5;
     CommentPage.comments :=
       [comment (lit "A<b>") (lit "2014-01-17") (Val (lit "2014-01-18")) (lit "one");
        comment (lit "B") (lit "2014-01-19") (Val (lit "2014-01-19")) (lit "two")] |}.

Definition full_fields : Fields.t :=
  {| Fields.summary := lit "<b>Summary</b>"; Fields.labels := Val [lit "public"];
     Fields.resolution := Val fixed;
     Fields.resolutiondate := Val (lit "2014-01-20");
     Fields.fixVersions :=
       Val [{| FixVersion.name := lit "1.0"; FixVersion.releaseDate := Undefined |}];
     Fields.description := Val (lit "<b>text</b>");
     Fields.comment := Val comments |}.

Definition private_fields : Fields.t :=
  {| Fields.summary := lit "Secret"; Fields.labels := Val [lit "Public"; lit "internal"];
     Fields.resolution := Val fixed; Fields.resolutiondate := Undefined;
     Fields.fixVersions := Undefined; Fields.description := Val (lit "secret");
     Fields.comment := Undefined |}.

(** A JSON client that answers every issue request with the document. *)
Definition JIRA (reply : Reply.t Issue.t) : Jira.t :=
  {| Jira.issue := λ _, reply;
     Jira.search := λ _, {| Reply.err := Null; Reply.obj := Undefined |} |}.

Definition found (i : Issue.t) : Reply.t Issue.t :=
  {| Reply.err := Null; Reply.obj := Val i |}.

Definition failed (name : jsstring) : Reply.t Issue.t :=
  {| Reply.err := Val {| JiraError.name := name |}; Reply.obj := Undefined |}.

Definition TEMPLATES : gmap jsstring jsstring :=
  {[ lit "primary" := lit "<html><body>%%CONTAINER%%</body></html>";
     lit "issue_index" := lit "<table>%%TABLE_BODY%%</table>" ]}.

Definition request (key : jsstring) : Request.t :=
  {| Request.params_key := Val key |}.

(** A summary with a letter outside ASCII: Caf, then e with an acute
    accent (U+00E9). *)
Definition cafe : jsstring := lit "Caf" ++ [233].

Definition search_results : SearchResults.t :=
  {| SearchResults.issues :=
       [{| IssueSummary.key := lit "ABC-1";
           IssueSummary.fields := {| SummaryFields.summary := cafe |} |}] |}.

(** A JSON client that answers every search with the results. *)
Definition search_JIRA (results : SearchResults.t) : Jira.t :=
  {| Jira.issue := λ _, failed (lit "InternalError");
     Jira.search := λ _, {| Reply.err := Null; Reply.obj := Val results |} |}.
End Example.

(** The response that carries the page [out] with its headers. *)
Definition page_response (out : jsstring) : Response.t :=
  {| Response.contentType := Some (lit "text/html");
     Response.contentLength := Some (length out);
     Response.statusCode := Some 200%Z; Response.body := Some out;
     Response.ended := true |}.

(** The computation leaves the response object as it is. *)
Definition keeps_response {A} (m : M A) : Prop :=
  ∀ w, World.res (fst (m w)) = World.res w.

(** A section of the page is shown under its title, or left out. *)
Definition shown (title : jsstring) (section : jsstring) : Prop :=
  starts_with (lit "<h2>" ++ title ++ lit "</h2>" ++ LF) section = true.

(** ** Start-up: the configuration file

    [read_config] parses [config.json] and checks it. The parsed document is
    a JSON value; numbers are taken to be integers, for which being zero is
    exact. *)

#[local] Set Warnings "-register-all".

Inductive json : Type :=
| JNull
| JBool (b : bool)
| JNum (n : Z)
| JStr (s : jsstring)
| JArr (items : list json)
| JObj (members : list (jsstring * json)).

(** The value of a member of a parsed object: of two members with one name
    the later one counts. *)
Fixpoint member (members : list (jsstring * json)) (k : jsstring)
  : option json :=
  match members with
  | [] => None
  | (k', v) :: rest =>
      match member rest k with
      | Some later => Some later
      | None => if str_eqb k' k then Some v else None
      end
  end.

(** Truthiness of the value of a property; [None] is [undefined]. *)
Definition json_truthy (v : option json) : bool :=
  match v with
  | None | Some JNull => false
  | Some (JBool b) => b
  | Some (JNum n) => negb (n =? 0)%Z
  | Some (JStr s) => match s with [] => false | _ => true end
  | Some (JArr _) | Some (JObj _) => true
  end.

(** What the [try] block of [read_config] can throw. *)
Inductive config_error :=
| AssertionFailed (message : jsstring)
| NotAnObject.

(** [v[k]] for one of the names of the configuration (none of them is
    [length] or an index): a member of an object, [undefined] on any other
    value, and a [TypeError] on [null] and [undefined]. *)
Definition get_property (v : option json) (k : jsstring)
  : config_error + option json :=
  match v with
  | None | Some JNull => inl NotAnObject
  | Some (JObj members) => inr (member members k)
  | Some _ => inr None
  end.

(** [mod_assert.ok(value, message)] *)
Definition assert_ok (value : option json) (message : jsstring)
  : config_error + unit :=
  if json_truthy value then inr tt else inl (AssertionFailed message).

Definition CHECK : list jsstring :=
  [lit "username"; lit "password"; lit "url"; lit "label"; lit "port"].

(** The loop over [CHECK]. *)
Fixpoint check_entries (c : json) (keys : list jsstring) : config_error + unit :=
  match keys with
  | [] => inr tt
  | k :: keys' =>
      match get_property (Some c) k with
      | inl ex => inl ex
      | inr v =>
          match assert_ok v (lit "config." ++ k) with
          | inl ex => inl ex
          | inr _ => check_entries c keys'
          end
      end
  end.

(** [mod_assert.ok(c.url.p, 'config.url.p')] *)
Definition check_url (c : json) (p : jsstring) : config_error + unit :=
  match get_property (Some c) (lit "url") with
  | inl ex => inl ex
  | inr url =>
      match get_property url p with
      | inl ex => inl ex
      | inr v => assert_ok v (lit "config.url." ++ p)
      end
  end.

(** The body of the [try] block. *)
Definition validate_config (c : json) : config_error + unit :=
  match check_entries c CHECK with
  | inl ex => inl ex
  | inr _ =>
      match check_url c (lit "base") with
      | inl ex => inl ex
      | inr _ => check_url c (lit "path")
      end
  end.

(** How a start-up routine ends: it returns, or the process exits. *)
Inductive startup (A : Type) : Type :=
| Returned (a : A)
| Exited (code : Z).
Arguments Returned {A} a.
Arguments Exited {A} code.

(** [read_config(log)] on the parsed document: the records logged and the
    outcome. *)
Definition read_config (c : json) : list LogRecord.t * startup json :=
  match validate_config c with
  | inr _ => ([], Returned c)
  | inl ex =>
      ([{| LogRecord.from := LOG; LogRecord.lvl := error;
           LogRecord.msg := lit "configuration validation failed" |}],
       Exited 1)
  end.

(** ** Start-up: the templates *)

(** [name.replace(/\.[^.]*$/, '')]: the match starts at a dot after which
    there is no other dot, that is at the last dot. *)
Fixpoint strip_extension (name : jsstring) : jsstring :=
  match name with
  | [] => []
  | c :: rest =>
      if (c =? 46) && negb (existsb (λ d, d =? 46) rest) then []
      else c :: strip_extension rest
  end.

(** [TEMPLATES[nam] = text] for a string [text]: an assignment to
    [__proto__] of a plain object is ignored. *)
Definition set_template (TEMPLATES : gmap jsstring jsstring)
    (nam text : jsstring) : gmap jsstring jsstring :=
  if str_eqb nam (lit "__proto__") then TEMPLATES else <[nam := text]> TEMPLATES.

Section Templates.
(** [mod_path.join] *)
Variable path_join : jsstring -> jsstring -> jsstring.
(** [mod_fs.readFileSync(path, 'utf8')]; [None] when it throws *)
Variable readFileSync : jsstring -> option jsstring.

(** The loop of [read_templates] over the entries of the directory, from the
    templates and the log so far; [None] when reading a file throws. *)
Fixpoint read_templates_from (tdir : jsstring) (ents : list jsstring)
    (TEMPLATES : gmap jsstring jsstring) (logged : list LogRecord.t)
  : list LogRecord.t * option (gmap jsstring jsstring) :=
  match ents with
  | [] => (logged, Some TEMPLATES)
  | ent :: ents' =>
      let path := path_join tdir ent in
      let nam := strip_extension ent in
      let logged :=
        logged ++ [{| LogRecord.from := LOG; LogRecord.lvl := info;
                      LogRecord.msg := lit "load template" |}] in
      match readFileSync path with
      | None => (logged, None)
      | Some text =>
          read_templates_from tdir ents' (set_template TEMPLATES nam text) logged
      end
  end.

(** [read_templates(log)], given the path of the directory and its entries;
    [TEMPLATES] starts as the empty object. *)
Definition read_templates (tdir : jsstring) (ents : list jsstring)
  : list LogRecord.t * option (gmap jsstring jsstring) :=
  read_templates_from tdir ents ∅ [].
End Templates.

(** ** The issue index of [jirapub.js] *)

(** A literal of the source with double quotes, written here with
    apostrophes in their place (the literals concerned have none). *)
Definition litq (s : string) : jsstring :=
  map (λ c, if c =? 39 then 34 else c) (lit s).

Module InlineIndex.
Definition page_head : jsstring :=
  litq "<!DOCTYPE html><html lang='en'><head><meta charset='utf-8'><meta http-equiv='X-UA-Compatible' content='IE=edge'><link href='//netdna.bootstrapcdn.com/bootstrap/3.0.3/css/bootstrap.min.css' rel='stylesheet'><style>body { padding-top: 50px; padding-bottom: 20px; }</style></head><body><div class='navbar navbar-inverse navbar-fixed-top' role='navigation'><div class='container'><div class='navbar-header'><button type='button' class='navbar-toggle' data-toggle='collapse' data-target='.navbar-collapse'><span class='sr-only'>Toggle navigation</span><span class='icon-bar'></span><span class='icon-bar'></span><span class='icon-bar'></span></button><a class='navbar-brand' href='/bugview'>Bugview</a></div></div></div><div class='container'><h1>Public Issues Index</h1>"
    ++ litq "<table class='table'><thead><tr><th><b>Issue</b></th><th><b>Synopsis</b></th></tr></thead><tbody>"
    ++ LF.

Definition page_foot : jsstring :=
  lit "</table></div></tbody></body></html>" ++ LF.

Section Handlers.
Variable CONFIG : Config.t.
Variable JIRA : Jira.t.

Definition handle_issue_index (req : Request.t) : M unit :=
  let url := Url.path (Config.url CONFIG)
               ++ lit "/search?jql=labels%20%3D%20%22"
               ++ Config.label CONFIG ++ lit "%22&fields=summary" in
  reply ← jira_get (Jira.search JIRA) url;
  match truthy (Reply.err reply) with
  | Some _err =>
      write_log req_log error (lit "error communicating with JIRA");;
      res_send 500 None;;
      next (Some false)
  | None =>
      write_log req_log info (lit "serving issue index");;
      let out := page_head in
      out ← match truthy (Reply.obj reply) with
            | Some results =>
                mret (index_rows (SearchResults.issues results) out)
            | None => throw TypeError
            end;
      let out := out ++ page_foot in
      res_set_contentType (lit "text/html");;
      res_set_contentLength (length out);;
      res_writeHead 200;;
      res_write out;;
      res_end;;
      next None
  end.
End Handlers.
End InlineIndex.

(** ** Reference definitions for the other properties *)

(** The record logged for a template. *)
Definition load_record : LogRecord.t := log_record LOG info (lit "load template").

(** The computation changes nothing of the world but the log. *)
Definition only_logs {A} (m : M A) : Prop :=
  ∀ w, World.res (fst (m w)) = World.res w
       ∧ World.requested (fst (m w)) = World.requested w
       ∧ World.nexts (fst (m w)) = World.nexts w.

(** The configuration is an object whose five entries and whose [url.base]
    and [url.path] are all truthy. *)
Definition config_complete (c : json) : Prop :=
  ∃ members url,
    c = JObj members
    ∧ Forall (λ k, json_truthy (member members k) = true) CHECK
    ∧ member members (lit "url") = Some (JObj url)
    ∧ json_truthy (member url (lit "base")) = true
    ∧ json_truthy (member url (lit "path")) = true.

(** No response was sent: nothing set, nothing written, [next] not called. *)
Definition nothing_sent (w : World.t) : Prop :=
  World.res w = Response.empty ∧ World.nexts w = [].

(** The request was answered once: the response is ended and [next] was
    called once. *)
Definition answered_once (w : World.t) : Prop :=
  Response.ended (World.res w) = true ∧ length (World.nexts w) = 1%nat.

(** A request for an issue that JIRA returns with its fields, the configured
    label among its labels. *)
Definition public_request (JIRA : Jira.t) (CONFIG : Config.t) (req : Request.t)
    (key : jsstring) (issue : Issue.t) (fields : Fields.t) : Prop :=
  Request.params_key req = Val key
  ∧ IssueKey key
  ∧ fetched JIRA CONFIG key issue
  ∧ Issue.fields issue = Val fields
  ∧ ∃ labels, Fields.labels fields = Val labels ∧ Config.label CONFIG ∈ labels.

(** The world once the handler has said that it serves the issue. *)
Definition serving (CONFIG : Config.t) (key : jsstring) : World.t :=
  with_logged [log_record req_log info (lit "serving issue")]
    (with_requested [issue_url CONFIG key] World.init).

(** Characters of an issue key. *)
Definition is_key_char (c : N) : bool := is_upper c || is_digit c || (c =? 45).

(** Further example documents. *)
Module Sample.
Definition two_results : SearchResults.t :=
  {| SearchResults.issues :=
       [{| IssueSummary.key := lit "B-2";
           IssueSummary.fields := {| SummaryFields.summary := lit "two" |} |};
        {| IssueSummary.key := lit "A-1";
           IssueSummary.fields := {| SummaryFields.summary := lit "one" |} |}] |}.

(** A JSON client whose searches fail with an error of the given name. *)
Definition failing_search (name : jsstring) : Jira.t :=
  {| Jira.issue := λ _, Example.failed name;
     Jira.search := λ _, {| Reply.err := Val {| JiraError.name := name |};
                            Reply.obj := Undefined |} |}.
End Sample.

(** ** Strings, keys and labels *)

Lemma str_eqb_eq a b : str_eqb a b = true ↔ a = b.
Proof.
  revert b. induction a as [|x a IH]; intros [|y b]; simpl; try (split; congruence).
  rewrite andb_true_iff, N.eqb_eq, IH. split; [intros [-> ->]|intros [= -> ->]]; done.
Qed.

Lemma str_eqb_refl a : str_eqb a a = true.
Proof. by apply str_eqb_eq. Qed.

Lemma indexOf_from_ge i arr x : (0 <= i)%Z → (indexOf_from i arr x = -1)%Z ↔ x ∉ arr.
Proof.
  revert i. induction arr as [|y arr IH]; intros i Hi; simpl.
  - split; [intros _; apply not_elem_of_nil | done].
  - destruct (str_eqb y x) eqn:E.
    + apply str_eqb_eq in E as ->. split; [lia | intros H; exfalso; apply H; left].
    + rewrite IH by lia. rewrite not_elem_of_cons. split; [|tauto].
      intros H; split; [|done]. intros ->. by rewrite str_eqb_refl in E.
Qed.

(** [indexOf] answers -1 exactly when no element of the array is the string. *)
Lemma indexOf_not_found arr x : (indexOf arr x =? -1)%Z = true ↔ x ∉ arr.
Proof. rewrite Z.eqb_eq. by apply indexOf_from_ge. Qed.

Lemma indexOf_found arr x : (indexOf arr x =? -1)%Z = false ↔ x ∈ arr.
Proof.
  rewrite <- not_true_iff_false, indexOf_not_found.
  split; [|tauto]. intros H. by destruct (decide (x ∈ arr)).
Qed.

Lemma re_digits_spec s :
  re_digits s = true ↔ s ≠ [] ∧ Forall (λ c, is_digit c = true) s.
Proof.
  induction s as [|c [|d r] IH].
  - simpl. split; [done | by intros [? _]].
  - simpl. split.
    + intros H. split; [done | by repeat constructor].
    + intros [_ H]. by inversion H.
  - change (re_digits (c :: d :: r)) with (is_digit c && re_digits (d :: r)).
    rewrite andb_true_iff, IH. split.
    + intros [Hc [_ Hr]]. split; [done | by constructor].
    + intros [_ H]. inversion H; subst. repeat split; done.
Qed.

Lemma hyphen_not_upper : is_upper 45 = false.
Proof. reflexivity. Qed.

Lemma re_key_rest_spec s :
  re_key_rest s = true ↔
  ∃ letters digits, s = letters ++ 45 :: digits
    ∧ Forall (λ c, is_upper c = true) letters ∧ re_digits digits = true.
Proof.
  induction s as [|c r IH]; simpl.
  - split; [done|]. intros (l & d & H & _). by destruct l.
  - destruct (is_upper c) eqn:Ec.
    + rewrite IH. split.
      * intros (l & d & -> & Hl & Hd). exists (c :: l), d. repeat split; [by constructor | done].
      * intros (l & d & H & Hl & Hd). destruct l as [|c' l]; simpl in H.
        -- injection H as -> ->. by rewrite hyphen_not_upper in Ec.
        -- injection H as -> ->. inversion Hl; subst. by exists l, d.
    + rewrite andb_true_iff, N.eqb_eq. split.
      * intros [-> Hd]. by exists [], r.
      * intros (l & d & H & Hl & Hd). destruct l as [|c' l]; simpl in H.
        -- by injection H as -> ->.
        -- injection H as -> ->. inversion Hl; subst. congruence.
Qed.

(** The matcher of the handlers accepts exactly the issue keys. *)
Lemma re_issue_key_spec s : re_issue_key s = true ↔ IssueKey s.
Proof.
  unfold IssueKey. destruct s as [|c r]; simpl.
  - split; [done|]. intros (l & d & H & _). by destruct l.
  - rewrite andb_true_iff, re_key_rest_spec. split.
    + intros [Hc (l & d & -> & Hl & Hd)]. apply re_digits_spec in Hd as [Hd1 Hd2].
      exists (c :: l), d. repeat split; [done | done | by constructor | done].
    + intros (l & d & H & Hl0 & Hd0 & Hl & Hd).
      destruct l as [|c' l]; [done|]. simpl in H. injection H as -> ->.
      inversion Hl; subst. split; [done|]. exists l, d. repeat split; [done|].
      by apply re_digits_spec.
Qed.

(** ** Occurrences of a tag in a concatenation of pieces *)

Lemma starts_with_sep p a c b :
  c ∉ p → starts_with p (a ++ c :: b) = starts_with p (a ++ [c]).
Proof.
  revert a. induction p as [|h p IH]; intros a Hc; [by destruct a|].
  apply not_elem_of_cons in Hc as [Hh Hp].
  destruct a as [|x a]; simpl.
  - destruct (N.eqb_spec h c); [congruence | done].
  - by rewrite IH.
Qed.

(** No occurrence of [p] runs across a character that [p] does not have. *)
Lemma count_occ_of_sep p a c b :
  c ∉ p →
  count_occ_of p (a ++ c :: b) = (count_occ_of p (a ++ [c]) + count_occ_of p b)%nat.
Proof.
  intros Hc. induction a as [|x a IH].
  - simpl. destruct p as [|h p]; [simpl; lia|].
    apply not_elem_of_cons in Hc as [Hh _]. simpl.
    destruct (N.eqb_spec h c); [congruence | simpl; lia].
  - change (count_occ_of p ((x :: a) ++ c :: b)) with
      (((if starts_with p ((x :: a) ++ c :: b) then 1 else 0)
        + count_occ_of p (a ++ c :: b))%nat).
    change (count_occ_of p ((x :: a) ++ [c])) with
      (((if starts_with p ((x :: a) ++ [c]) then 1 else 0)
        + count_occ_of p (a ++ [c]))%nat).
    rewrite (starts_with_sep p (x :: a) c b Hc), IH. lia.
Qed.

(** A text without the first character of [p] has no occurrence of [p]. *)
Lemma count_occ_of_skip h p e t :
  h ∉ e → count_occ_of (h :: p) (e ++ t) = count_occ_of (h :: p) t.
Proof.
  induction e as [|x e IH]; intros He; [done|].
  apply not_elem_of_cons in He as [Hx He].
  change (count_occ_of (h :: p) ((x :: e) ++ t)) with
    (((if starts_with (h :: p) (x :: e ++ t) then 1 else 0)
      + count_occ_of (h :: p) (e ++ t))%nat).
  rewrite IH by done. simpl. destruct (N.eqb_spec h x); [congruence | done].
Qed.

(** ** Escaped text *)

Ltac chars :=
  repeat match goal with
  | H : context [N.eqb ?a ?b] |- _ => destruct (N.eqb_spec a b)
  | |- context [N.eqb ?a ?b] => destruct (N.eqb_spec a b)
  | H : context [N.leb ?a ?b] |- _ => destruct (N.leb_spec a b)
  | |- context [N.leb ?a ?b] => destruct (N.leb_spec a b)
  | H : context [N.ltb ?a ?b] |- _ => destruct (N.ltb_spec a b)
  | |- context [N.ltb ?a ?b] => destruct (N.ltb_spec a b)
  end;
  simpl in *; try done; try lia.

Lemma ref_char_not_special c : is_ref_char c = true → html_special c = false.
Proof. unfold is_ref_char, html_special, is_digit, is_upper. chars. Qed.

Lemma digit_is_ref_char c : is_digit c = true → is_ref_char c = true.
Proof. unfold is_ref_char. intros ->. by rewrite orb_true_r. Qed.

Lemma escaped_from_text n s : escaped_from false n s = escaped_from false 0 s.
Proof. by destruct s. Qed.

(** In an escaped text the only special character is the ampersand that
    opens a reference. *)
Lemma escaped_from_special in_ref n s c :
  escaped_from in_ref n s = true → c ∈ s → html_special c = true → c = 38.
Proof.
  revert in_ref n. induction s as [|x s IH]; intros in_ref n Hs Hc Hsp.
  - by apply elem_of_nil in Hc.
  - apply elem_of_cons in Hc as [->|Hc].
    + simpl in Hs. destruct in_ref.
      * destruct (N.eqb_spec x 59) as [->|_]; [done|].
        apply andb_true_iff in Hs as [Hr _].
        apply ref_char_not_special in Hr. congruence.
      * destruct (N.eqb_spec x 38) as [->|_]; [done|].
        apply andb_true_iff in Hs as [Hr _].
        apply negb_true_iff in Hr. congruence.
    + simpl in Hs. destruct in_ref.
      * destruct (x =? 59).
        -- apply andb_true_iff in Hs as [_ Hs]. eauto.
        -- apply andb_true_iff in Hs as [_ Hs]. eauto.
      * destruct (x =? 38); [eauto|].
        apply andb_true_iff in Hs as [_ Hs]. eauto.
Qed.

Lemma escaped_no_markup s c :
  is_escaped_text s = true → c ∈ s → c ≠ 60 ∧ c ≠ 62 ∧ c ≠ 34 ∧ c ≠ 39.
Proof.
  intros Hs Hc. repeat split; intros ->;
    by specialize (escaped_from_special _ _ _ _ Hs Hc eq_refl).
Qed.

Lemma escaped_no_lt s : is_escaped_text s = true → 60 ∉ s.
Proof. intros Hs Hc. by destruct (escaped_no_markup s 60 Hs Hc) as [? _]. Qed.

Lemma escaped_from_app in_ref n a b :
  escaped_from in_ref n a = true →
  escaped_from in_ref n (a ++ b) = escaped_from false 0 b.
Proof.
  revert in_ref n. induction a as [|x a IH]; intros in_ref n Ha; simpl in *.
  - destruct in_ref; [done|]. apply escaped_from_text.
  - destruct in_ref.
    + destruct (x =? 59); apply andb_true_iff in Ha as [-> Ha]; simpl; eauto.
    + destruct (x =? 38); [eauto|].
      apply andb_true_iff in Ha as [-> Ha]; simpl; eauto.
Qed.

Lemma is_escaped_text_app a b :
  is_escaped_text a = true → is_escaped_text b = true →
  is_escaped_text (a ++ b) = true.
Proof. unfold is_escaped_text. intros Ha Hb. by rewrite escaped_from_app. Qed.

(** The model of [ent] escapes every string. *)
Lemma decimal_digit n : is_digit (48 + n mod 10) = true.
Proof.
  assert (n mod 10 < 10) by (apply N.mod_upper_bound; lia).
  generalize dependent (n mod 10). intros d Hd. unfold is_digit. chars.
Qed.

Lemma decimal_fuel_digits fuel n :
  Forall (λ c, is_digit c = true) (decimal_fuel fuel n).
Proof.
  revert n. induction fuel as [|fuel IH]; intros n; simpl.
  - constructor; [apply decimal_digit | done].
  - destruct (N.ltb_spec n 10).
    + constructor; [|done]. unfold is_digit. chars.
    + apply Forall_app. split; [done|]. constructor; [apply decimal_digit | done].
Qed.

Lemma escaped_from_digits n ds :
  Forall (λ c, is_digit c = true) ds → (0 < n + length ds)%nat →
  escaped_from true n (ds ++ [59]) = true.
Proof.
  intros Hds. revert n. induction Hds as [|d ds Hd _ IH]; intros n Hn; simpl in *.
  - destruct n; [lia | done].
  - destruct (N.eqb_spec d 59) as [->|_]; [done|].
    rewrite (digit_is_ref_char d Hd). simpl. apply IH. lia.
Qed.

Lemma ent_reference_escaped cp : is_escaped_text (ent_reference cp) = true.
Proof.
  unfold ent_reference, is_escaped_text.
  change (lit "&#" ++ decimal cp ++ lit ";") with (38 :: 35 :: decimal cp ++ [59]).
  simpl. apply escaped_from_digits; [apply decimal_fuel_digits|]. simpl. lia.
Qed.

Lemma ent_encode_code_point_escaped cp :
  is_escaped_text (ent_encode_code_point cp) = true.
Proof.
  unfold ent_encode_code_point.
  destruct ((cp <? 32) || (127 <=? cp) || html_special cp) eqn:E.
  - apply ent_reference_escaped.
  - apply orb_false_iff in E as [_ E]. unfold is_escaped_text. simpl.
    unfold html_special in *. chars.
Qed.

Lemma ent_encode_cons c rest :
  ent_encode (c :: rest) =
  if is_high_surrogate c then
    match rest with
    | d :: rest' =>
        if is_low_surrogate d
        then ent_reference (0x10000 + N.shiftl (c - 0xD800) 10 + (d - 0xDC00))
               ++ ent_encode rest'
        else ent_reference c ++ ent_encode rest
    | [] => ent_reference c
    end
  else ent_encode_code_point c ++ ent_encode rest.
Proof. done. Qed.

Lemma ent_encode_escaped s : is_escaped_text (ent_encode s) = true.
Proof.
  remember (length s) as k eqn:Hk. revert s Hk.
  induction (lt_wf k) as [k _ IH]. intros s ->.
  destruct s as [|c rest]; [done|]. rewrite ent_encode_cons.
  destruct (is_high_surrogate c).
  - destruct rest as [|d rest'].
    + apply ent_reference_escaped.
    + destruct (is_low_surrogate d).
      * apply is_escaped_text_app; [apply ent_reference_escaped|].
        apply (IH (length rest') ltac:(simpl; lia) rest' eq_refl).
      * apply is_escaped_text_app; [apply ent_reference_escaped|].
        apply (IH (length (d :: rest')) ltac:(simpl; lia) (d :: rest') eq_refl).
  - apply is_escaped_text_app; [apply ent_encode_code_point_escaped|].
    apply (IH (length rest) ltac:(simpl; lia) rest eq_refl).
Qed.

(** ** Splitting into lines *)

Lemma re_crlf_opt_other x t :
  x ≠ 10 → (x = 13 → head t ≠ Some 10) → re_crlf_opt (x :: t) = 0%nat.
Proof.
  intros Hx Ht. unfold re_crlf_opt, CR, LF. simpl.
  destruct (N.eqb_spec 13 x) as [<-|_]; simpl.
  - destruct t as [|y t]; simpl; [done|].
    destruct (N.eqb_spec 10 y) as [<-|_]; simpl; [exfalso; by apply Ht | done].
  - destruct (N.eqb_spec 10 x); simpl; [congruence | done].
Qed.

(** A CR LF pair ends a line. *)
Lemma split_crlf a b :
  10 ∉ a →
  split re_crlf_opt (a ++ CR ++ LF ++ b) = a :: split re_crlf_opt b.
Proof.
  unfold split. induction a as [|x a IH]; intros Ha; [reflexivity|].
  apply not_elem_of_cons in Ha as [Hx Ha].
  change ((x :: a) ++ CR ++ LF ++ b) with (x :: (a ++ CR ++ LF ++ b)).
  cbn [split_from]. rewrite re_crlf_opt_other, IH; [done.. |].
  intros ->. destruct a as [|y a]; [done|].
  apply not_elem_of_cons in Ha as [Hy _]. simpl. congruence.
Qed.

(** A bare LF ends a line. *)
Lemma split_lf a b :
  10 ∉ a → last a ≠ Some 13 →
  split re_crlf_opt (a ++ LF ++ b) = a :: split re_crlf_opt b.
Proof.
  unfold split. induction a as [|x a IH]; intros Ha Hl; [reflexivity|].
  apply not_elem_of_cons in Ha as [Hx Ha].
  change ((x :: a) ++ LF ++ b) with (x :: (a ++ LF ++ b)).
  cbn [split_from]. rewrite re_crlf_opt_other; [|done|].
  - rewrite IH; [done | done |]. destruct a; [done | by rewrite last_cons_cons in Hl].
  - intros ->. destruct a as [|y a]; [done|].
    apply not_elem_of_cons in Ha as [Hy _]. simpl. congruence.
Qed.

(** A string without LF is one line. *)
Lemma split_no_lf a : 10 ∉ a → split re_crlf_opt a = [a].
Proof.
  unfold split. induction a as [|x a IH]; intros Ha; [reflexivity|].
  apply not_elem_of_cons in Ha as [Hx Ha].
  cbn [split_from]. rewrite re_crlf_opt_other, IH; [done.. |].
  intros ->. destruct a as [|y a]; [done|].
  apply not_elem_of_cons in Ha as [Hy _]. simpl. congruence.
Qed.

(** ** The renderer as a sequence of pieces *)

Lemma format_markup_lines_chunks encode lines fmton out :
  format_markup_lines encode lines fmton out
  = out ++ concat (markup_chunks encode lines fmton).
Proof.
  revert fmton out. induction lines as [|line lines IH]; intros fmton out; simpl.
  - by rewrite app_nil_r.
  - destruct (is_fence line); rewrite IH; destruct fmton; simpl;
      unfold line_end; by rewrite <- ?app_assoc.
Qed.

Lemma format_markup_chunks sep encode desc :
  format_markup sep encode desc
  = concat (markup_chunks encode (split sep desc) false).
Proof. unfold format_markup. by rewrite format_markup_lines_chunks. Qed.

Lemma fences_cons line lines :
  fences (line :: lines)
  = ((if is_fence line then 1 else 0) + fences lines)%nat.
Proof.
  unfold fences. rewrite filter_cons.
  destruct (is_fence line); by case_decide.
Qed.

Lemma in_block_after_cons line lines :
  in_block_after (line :: lines)
  = xorb (is_fence line) (in_block_after lines).
Proof.
  unfold in_block_after. rewrite fences_cons. destruct (is_fence line); [|done].
  change (1 + fences lines)%nat with (S (fences lines)).
  by rewrite Nat.odd_succ, <- Nat.negb_odd.
Qed.

Lemma markup_chunks_app encode l1 l2 in_block :
  markup_chunks encode (l1 ++ l2) in_block
  = markup_chunks encode l1 in_block
    ++ markup_chunks encode l2 (xorb in_block (in_block_after l1)).
Proof.
  revert in_block. induction l1 as [|line l1 IH]; intros in_block; simpl.
  - by rewrite xorb_false_r.
  - rewrite in_block_after_cons.
    destruct (is_fence line); rewrite IH; simpl; f_equal; f_equal;
      by destruct in_block, (in_block_after l1).
Qed.

Lemma markup_chunks_no_fence encode lines in_block :
  no_fence lines →
  markup_chunks encode lines in_block
  = map (λ line, encode line ++ line_end in_block) lines.
Proof.
  induction 1 as [|line lines Hl _ IH]; simpl; [done|]. by rewrite Hl, IH.
Qed.

Lemma no_fence_in_block_after lines : no_fence lines → in_block_after lines = false.
Proof.
  induction 1 as [|line lines Hl _ IH]; [done|].
  by rewrite in_block_after_cons, Hl, IH.
Qed.

Lemma markup_chunks_newline encode lines in_block :
  Forall ends_in_newline (markup_chunks encode lines in_block).
Proof.
  revert in_block. induction lines as [|line lines IH]; intros in_block; simpl; [done|].
  destruct (is_fence line); constructor; try apply IH.
  - destruct in_block; [by exists (lit "</pre>")|].
    eexists. unfold pre_open. rewrite !app_assoc. done.
  - destruct in_block; unfold line_end; [by exists (encode line)|].
    exists (encode line ++ lit "<br>"). by rewrite <- app_assoc.
Qed.

(** ** Occurrences of the tags in the output *)

Ltac eval_lits :=
  repeat match goal with
  | |- context [lit ?s] =>
      let v := eval vm_compute in (lit s) in change (lit s) with v
  end.

Lemma count_occ_of_chunk p chunk t :
  10 ∉ p → ends_in_newline chunk →
  count_occ_of p (chunk ++ t) = (count_occ_of p chunk + count_occ_of p t)%nat.
Proof.
  intros Hp [a ->]. rewrite <- app_assoc. simpl. by apply count_occ_of_sep.
Qed.

Lemma tags_no_newline :
  (10 ∉ lit "<pre") ∧ (10 ∉ lit "</pre>") ∧ (10 ∉ lit "<br>").
Proof.
  eval_lits. repeat split; intros H;
    repeat (apply elem_of_cons in H as [H|H]; [discriminate|]);
    by apply elem_of_nil in H.
Qed.

Lemma count_tag_line p (encode : jsstring → jsstring) line in_block :
  is_escaped_text (encode line) = true →
  count_occ_of (60 :: p) (encode line ++ line_end in_block)
  = count_occ_of (60 :: p) (line_end in_block).
Proof. intros H. apply count_occ_of_skip. by apply escaped_no_lt. Qed.

Lemma count_pre_in_line (encode : jsstring → jsstring) line in_block :
  is_escaped_text (encode line) = true →
  count_occ_of (lit "<pre") (encode line ++ line_end in_block) = 0%nat
  ∧ count_occ_of (lit "</pre>") (encode line ++ line_end in_block) = 0%nat
  ∧ count_occ_of (lit "<br>") (encode line ++ line_end in_block)
    = (if in_block then 0 else 1)%nat.
Proof.
  intros H.
  pose proof (count_tag_line (lit "pre") encode line in_block H) as H1.
  pose proof (count_tag_line (lit "/pre>") encode line in_block H) as H2.
  pose proof (count_tag_line (lit "br>") encode line in_block H) as H3.
  change (60 :: lit "pre") with (lit "<pre") in H1.
  change (60 :: lit "/pre>") with (lit "</pre>") in H2.
  change (60 :: lit "br>") with (lit "<br>") in H3.
  rewrite H1, H2, H3. by destruct in_block.
Qed.

Lemma count_in_tags :
  count_occ_of (lit "<pre") pre_open = 1%nat
  ∧ count_occ_of (lit "</pre>") pre_open = 0%nat
  ∧ count_occ_of (lit "<br>") pre_open = 0%nat
  ∧ count_occ_of (lit "<pre") pre_close = 0%nat
  ∧ count_occ_of (lit "</pre>") pre_close = 1%nat
  ∧ count_occ_of (lit "<br>") pre_close = 0%nat.
Proof. by vm_compute. Qed.

(** Opening and closing tags of the output after [lines], when the encoder
    escapes them: one tag per fence line, and one more opening than closing
    tag exactly when a block is left open. *)
Lemma count_pre_tags (encode : jsstring → jsstring) lines in_block :
  escapes encode lines →
  let out := concat (markup_chunks encode lines in_block) in
  let opened := count_occ_of (lit "<pre") out in
  let closed := count_occ_of (lit "</pre>") out in
  (opened + closed = fences lines
   ∧ opened + Nat.b2n in_block
     = closed + Nat.b2n (xorb in_block (in_block_after lines)))%nat.
Proof.
  intros Hesc. revert in_block.
  induction Hesc as [|line lines Hl _ IH]; intros in_block; [by destruct in_block|].
  cbn zeta in *. destruct tags_no_newline as (N1 & N2 & _).
  pose proof (markup_chunks_newline encode (line :: lines) in_block) as Hnl.
  rewrite in_block_after_cons, fences_cons. simpl markup_chunks in *.
  destruct (is_fence line).
  - apply Forall_cons_1 in Hnl as [Hnl _]. simpl concat.
    rewrite !(count_occ_of_chunk (lit "<pre")),
      !(count_occ_of_chunk (lit "</pre>")) by done.
    destruct (IH (negb in_block)) as [E1 E2].
    destruct count_in_tags as (T1 & T2 & _ & T4 & T5 & _).
    destruct in_block; simpl in *; rewrite ?T1, ?T2, ?T4, ?T5;
      destruct (in_block_after lines); simpl in *; lia.
  - apply Forall_cons_1 in Hnl as [Hnl _]. simpl concat.
    rewrite !(count_occ_of_chunk (lit "<pre")),
      !(count_occ_of_chunk (lit "</pre>")) by done.
    destruct (count_pre_in_line encode line in_block Hl) as (-> & -> & _).
    destruct (IH in_block) as [E1 E2]. simpl in *. lia.
Qed.

(** One [<br>] per line when there is no fence line. *)
Lemma count_br_no_fence (encode : jsstring → jsstring) lines in_block :
  escapes encode lines → no_fence lines →
  let out := concat (markup_chunks encode lines in_block) in
  count_occ_of (lit "<br>") out = (if in_block then 0 else length lines)%nat.
Proof.
  intros Hesc Hnf. cbn zeta. destruct tags_no_newline as (_ & _ & N3).
  induction Hesc as [|line lines Hl _ IH]; [by destruct in_block|].
  pose proof (markup_chunks_newline encode (line :: lines) in_block) as Hnl.
  apply Forall_cons_1 in Hnf as [Hf Hnf]. simpl markup_chunks in *. rewrite Hf in *.
  apply Forall_cons_1 in Hnl as [Hnl _]. simpl concat.
  rewrite count_occ_of_chunk by done.
  destruct (count_pre_in_line encode line in_block Hl) as (_ & _ & ->).
  rewrite IH by done. by destruct in_block.
Qed.

Lemma chunks_br_lines (encode : jsstring → jsstring) lines :
  no_fence lines → concat (markup_chunks encode lines false) = br_lines encode lines.
Proof. intros H. by rewrite markup_chunks_no_fence. Qed.

Lemma chunks_pre_lines (encode : jsstring → jsstring) lines :
  no_fence lines → concat (markup_chunks encode lines true) = pre_lines encode lines.
Proof. intros H. by rewrite markup_chunks_no_fence. Qed.

Lemma escapes_app encode l1 l2 :
  escapes encode (l1 ++ l2) ↔ escapes encode l1 ∧ escapes encode l2.
Proof. apply Forall_app. Qed.

(** ** The markup renderer *)

(** C2: every line of the input that is not a fence line is emitted through
    the encoder, at its place in the output and followed by [<br>] and a
    newline outside a block or by a newline inside one. A line that the
    encoder escapes carries none of [<], [>] and the quotes into the output,
    and the ampersand only at the head of a character reference; the encoder
    of [ent], as modelled, escapes every line. *)
Theorem format_markup_encodes_line (encode : jsstring → jsstring) desc i line :
  split re_crlf_opt desc !! i = Some line →
  is_fence line = false →
  let lines := split re_crlf_opt desc in
  let in_block := in_block_after (take i lines) in
  format_markup re_crlf_opt encode desc
  = format_markup_lines encode (take i lines) false []
    ++ (encode line ++ line_end in_block)
    ++ concat (markup_chunks encode (drop (S i) lines) in_block)
  ∧ (is_escaped_text (encode line) = true →
     ∀ c, c ∈ encode line → html_special c = true → c = 38)
  ∧ is_escaped_text (ent_encode line) = true.
Proof.
  intros Hi Hf lines in_block. split; [|split].
  - rewrite format_markup_chunks, format_markup_lines_chunks. fold lines.
    rewrite <- (take_drop_middle lines i line Hi) at 1.
    rewrite markup_chunks_app, concat_app. simpl. by rewrite Hf.
  - intros He c Hc Hs. by apply (escaped_from_special _ _ _ _ He Hc).
  - apply ent_encode_escaped.
Qed.

Lemma format_markup_encodes_line_witness :
  format_markup re_crlf_opt ent_encode (lit "a<b" ++ LF ++ lit "c")
  = lit "a&#60;b<br>" ++ LF ++ lit "c<br>" ++ LF.
Proof.
  destruct (format_markup_encodes_line ent_encode (lit "a<b" ++ LF ++ lit "c")
              0 (lit "a<b") eq_refl eq_refl) as [H _].
  rewrite H. reflexivity.
Defined.

(** C5: with one pair of fence lines, the lines between them are emitted
    encoded, each followed by a newline and none by [<br>], between the only
    opening tag and the only closing tag of the output; with an odd number of
    fence lines the output has one opening tag more than it has closing
    tags. *)
Theorem format_markup_fenced_block (encode : jsstring → jsstring) desc
    before opening inside closing after :
  split re_crlf_opt desc = before ++ opening :: inside ++ closing :: after →
  is_fence opening = true → is_fence closing = true →
  no_fence before → no_fence inside → no_fence after →
  escapes encode (split re_crlf_opt desc) →
  let out := format_markup re_crlf_opt encode desc in
  out = br_lines encode before ++ pre_open ++ pre_lines encode inside
          ++ pre_close ++ br_lines encode after
  ∧ count_occ_of (lit "<pre") out = 1%nat
  ∧ count_occ_of (lit "</pre>") out = 1%nat
  ∧ count_occ_of (lit "<br>") (pre_lines encode inside) = 0%nat
  ∧ (∀ text,
       escapes encode (split re_crlf_opt text) →
       Nat.odd (fences (split re_crlf_opt text)) = true →
       count_occ_of (lit "<pre") (format_markup re_crlf_opt encode text)
       = S (count_occ_of (lit "</pre>") (format_markup re_crlf_opt encode text))).
Proof.
  intros Hlines Ho Hc Hb Hi Ha Hesc out.
  assert (Hfences : fences (split re_crlf_opt desc) = 2%nat).
  { rewrite Hlines. unfold fences. rewrite filter_app, filter_cons, filter_app, filter_cons.
    rewrite !decide_True by done.
    assert (∀ ls, no_fence ls → filter (λ l, is_fence l = true) ls = []) as Hnil.
    { induction 1 as [|l ls Hl _ IH]; [done|].
      rewrite filter_cons, decide_False by congruence. done. }
    rewrite !Hnil by done. done. }
  split; [|split; [|split; [|split]]].
  - unfold out. rewrite format_markup_chunks, Hlines.
    rewrite markup_chunks_app, (no_fence_in_block_after before Hb).
    cbn [xorb markup_chunks]. rewrite Ho. cbn [negb].
    rewrite (markup_chunks_app encode inside), (no_fence_in_block_after inside Hi).
    cbn [xorb markup_chunks]. rewrite Hc. cbn [negb].
    rewrite concat_app, concat_cons, concat_app, concat_cons.
    by rewrite !chunks_br_lines, chunks_pre_lines.
  - unfold out. rewrite format_markup_chunks.
    destruct (count_pre_tags encode _ false Hesc) as [E1 E2].
    cbn zeta in *. unfold in_block_after in E2. rewrite Hfences in *.
    simpl in E2. lia.
  - unfold out. rewrite format_markup_chunks.
    destruct (count_pre_tags encode _ false Hesc) as [E1 E2].
    cbn zeta in *. unfold in_block_after in E2. rewrite Hfences in *.
    simpl in E2. lia.
  - rewrite <- chunks_pre_lines by done.
    rewrite Hlines in Hesc. apply escapes_app in Hesc as [_ Hesc].
    apply Forall_cons_1 in Hesc as [_ Hesc]. apply escapes_app in Hesc as [Hesc _].
    by rewrite (count_br_no_fence encode inside true).
  - intros text Ht Hodd. rewrite format_markup_chunks.
    destruct (count_pre_tags encode _ false Ht) as [E1 E2].
    cbn zeta in *. unfold in_block_after in E2. rewrite Hodd in E2.
    simpl in E2. lia.
Qed.

Lemma format_markup_fenced_block_witness :
  let desc := lit "a" ++ LF ++ lit "{code:java}" ++ CR ++ LF ++ lit "x<y" ++ LF
                ++ lit "{code}" ++ LF ++ lit "b" in
  let unclosed := lit "{noformat}" ++ LF ++ lit "x" in
  format_markup re_crlf_opt ent_encode desc
  = lit "a<br>" ++ LF ++ pre_open ++ lit "x&#60;y" ++ LF ++ pre_close
      ++ lit "b<br>" ++ LF
  ∧ count_occ_of (lit "<pre") (format_markup re_crlf_opt ent_encode desc) = 1%nat
  ∧ count_occ_of (lit "</pre>") (format_markup re_crlf_opt ent_encode desc) = 1%nat
  ∧ count_occ_of (lit "<pre") (format_markup re_crlf_opt ent_encode unclosed)
    = S (count_occ_of (lit "</pre>") (format_markup re_crlf_opt ent_encode unclosed)).
Proof.
  intros desc unclosed.
  destruct (format_markup_fenced_block ent_encode desc
              [lit "a"] (lit "{code:java}") [lit "x<y"] (lit "{code}") [lit "b"]
              eq_refl eq_refl eq_refl
              ltac:(by repeat constructor) ltac:(by repeat constructor)
              ltac:(by repeat constructor) ltac:(by repeat constructor))
    as (H1 & H2 & H3 & _ & H5).
  split; [rewrite H1; reflexivity|]. split; [done|]. split; [done|].
  apply H5; [by repeat constructor | reflexivity].
Defined.

(** C6, as stated, fails on the empty string: its one empty line is emitted
    with its [<br>]. *)
Lemma format_markup_empty_counterexample :
  format_markup re_crlf_opt ent_encode (lit "") = lit "<br>" ++ LF
  ∧ format_markup re_crlf_opt ent_encode (lit "") ≠ lit ""
  ∧ Inline.format_markup (lit "") = lit "<br>" ++ LF
  ∧ Legacy.format_markup (lit "") = lit "<br>" ++ LF.
Proof. by vm_compute. Qed.

(** C6, amended: the renderer is a function of every string; for the empty
    string it emits the encoding of one empty line followed by [<br>] and a
    newline; for an input without fence lines, whose lines the encoder
    escapes, the output is one encoded line followed by [<br>] and a newline
    per line of the input, with as many [<br>] as lines and no [<pre]; and a
    line ends at a CR LF pair as well as at a bare LF. *)
Theorem format_markup_plain_text (encode : jsstring → jsstring) desc :
  no_fence (split re_crlf_opt desc) →
  escapes encode (split re_crlf_opt desc) →
  let out := format_markup re_crlf_opt encode desc in
  out = br_lines encode (split re_crlf_opt desc)
  ∧ count_occ_of (lit "<br>") out = length (split re_crlf_opt desc)
  ∧ count_occ_of (lit "<pre") out = 0%nat
  ∧ format_markup re_crlf_opt encode [] = encode [] ++ lit "<br>" ++ LF
  ∧ (∀ a b, 10 ∉ a →
       split re_crlf_opt (a ++ CR ++ LF ++ b) = a :: split re_crlf_opt b)
  ∧ (∀ a b, 10 ∉ a → last a ≠ Some 13 →
       split re_crlf_opt (a ++ LF ++ b) = a :: split re_crlf_opt b)
  ∧ (∀ a, 10 ∉ a → split re_crlf_opt a = [a]).
Proof.
  intros Hnf Hesc out. unfold out. rewrite format_markup_chunks.
  split; [|split; [|split; [|split; [|split; [|split]]]]].
  - by apply chunks_br_lines.
  - by rewrite (count_br_no_fence encode _ false).
  - destruct (count_pre_tags encode _ false Hesc) as [E1 E2]. cbn zeta in *.
    rewrite (no_fence_in_block_after _ Hnf) in E2.
    assert (fences (split re_crlf_opt desc) = 0%nat) as E0.
    { clear -Hnf. induction Hnf as [|l ls Hl _ IH]; [done|].
      by rewrite fences_cons, Hl, IH. }
    lia.
  - reflexivity.
  - apply split_crlf.
  - apply split_lf.
  - apply split_no_lf.
Qed.

Lemma format_markup_plain_text_witness :
  let desc := lit "a & b" ++ CR ++ LF ++ lit "<pre>" ++ LF ++ lit "c" in
  format_markup re_crlf_opt ent_encode desc
  = lit "a &#38; b<br>" ++ LF ++ lit "&#60;pre&#62;<br>" ++ LF ++ lit "c<br>" ++ LF
  ∧ count_occ_of (lit "<br>") (format_markup re_crlf_opt ent_encode desc) = 3%nat
  ∧ count_occ_of (lit "<pre") (format_markup re_crlf_opt ent_encode desc) = 0%nat.
Proof.
  intros desc.
  destruct (format_markup_plain_text ent_encode desc
              ltac:(by repeat constructor) ltac:(by repeat constructor))
    as (H1 & H2 & H3 & _).
  split; [|done]. rewrite H1. reflexivity.
Defined.

(** The two revisions without an encoder emit a line as it is, and the
    oldest one does not end a line at a bare LF. *)
Example inline_format_markup_raw :
  Inline.format_markup (lit "<script>") = lit "<script><br>" ++ LF.
Proof. reflexivity. Qed.

Example legacy_format_markup_bare_lf :
  Legacy.format_markup (lit "a" ++ LF ++ lit "b") = lit "a" ++ LF ++ lit "b<br>" ++ LF.
Proof. reflexivity. Qed.

(** ** The page composer *)

(** From here on the literals of the source stay folded. *)
#[local] Opaque lit.

Lemma bind_value {A B} (m : M A) (f : A → M B) w w' a :
  m w = (w', inr a) → (m ≫= f) w = f a w'.
Proof. unfold mbind, M_bind. by intros ->. Qed.

Lemma bind_exception {A B} (m : M A) (f : A → M B) w w' e :
  m w = (w', inl e) → (m ≫= f) w = (w', inl e).
Proof. unfold mbind, M_bind. by intros ->. Qed.

Lemma toISOString_valid (d : date) w :
  is_Some d → toISOString d w = (w, inr (iso d)).
Proof. by intros [t ->]. Qed.

Lemma format_fix_versions_spec fvs out :
  format_fix_versions fvs out = out ++ concat (map fix_version_html fvs).
Proof.
  revert out. induction fvs as [|fv fvs IH]; intros out; simpl.
  - by rewrite app_nil_r.
  - rewrite IH. unfold fix_version_html. by rewrite <- !app_assoc.
Qed.

Lemma shade_odd k :
  (if Nat.odd k then lit "#DDDDDD" else lit "#EEEEEE") = shade k.
Proof. unfold shade. rewrite <- Nat.negb_odd. by destruct (Nat.odd k). Qed.

(** The loop over the comments does not touch the world and appends one block
    per comment, in order, when the dates are valid. *)
Lemma format_comments_spec sep encode Date_parse coms k out w :
  Forall (comment_dates_valid Date_parse) coms →
  format_comments sep encode Date_parse coms (Nat.odd k) out w
  = (w, inr (out ++ concat (imap (λ i, comment_html sep encode Date_parse (k + i)) coms))).
Proof.
  intros Hv. revert k out.
  induction Hv as [|com coms [Hc Hu] _ IH]; intros k out.
  - simpl. by rewrite app_nil_r.
  - cbn [format_comments].
    erewrite bind_value by (by apply toISOString_valid).
    assert (∀ o : jsstring,
      match truthy_string (Comment.updated com) with
      | Some updated =>
          if negb (str_eqb updated (Comment.created com)) then
            updated_at ← toISOString (Date_parse updated);
            mret (o ++ lit "Updated at " ++ updated_at ++ lit "<br>" ++ LF)
          else mret o
      | None => mret o
      end w = (w, inr (o ++ updated_line Date_parse com))) as Hupd.
    { intros o. unfold updated_line.
      destruct (Comment.updated com) as [| |[|c u]] eqn:E; cbn [truthy_string];
        try (by rewrite app_nil_r).
      destruct (str_eqb (c :: u) (Comment.created com)) eqn:Eq; cbn [negb].
      - by rewrite app_nil_r.
      - erewrite bind_value; [done|]. apply toISOString_valid.
        apply (Hu (c :: u)); [done | done |].
        intros Hcu. apply str_eqb_eq in Hcu. congruence. }
    erewrite bind_value by apply Hupd.
    rewrite Nat.negb_odd, <- Nat.odd_succ.
    rewrite (IH (S k)). rewrite imap_cons, Nat.add_0_r, shade_odd.
    assert (imap ((λ i, comment_html sep encode Date_parse (k + i)) ∘ S) coms
            = imap (λ i, comment_html sep encode Date_parse (S k + i)) coms) as ->.
    { apply imap_ext. intros i c _. simpl. f_equal. lia. }
    rewrite concat_cons, (app_assoc out (comment_html sep encode Date_parse k com)).
    do 3 f_equal.
    unfold comment_html, comment_author_html, comment_body_html.
    by rewrite <- !app_assoc.
Qed.

Lemma format_comments_all sep encode Date_parse coms out w :
  Forall (comment_dates_valid Date_parse) coms →
  format_comments sep encode Date_parse coms false out w
  = (w, inr (out ++ comments_html sep encode Date_parse coms)).
Proof. intros H. apply (format_comments_spec sep encode Date_parse coms 0 out w H). Qed.

(** With valid dates the composer returns the page, section by section, and
    its only effect is the log record of a count mismatch. *)
Lemma format_issue_page sep encode Date_parse issue fields w :
  Issue.fields issue = Val fields →
  dates_valid Date_parse fields →
  format_issue sep encode Date_parse issue w
  = (if comment_count_mismatch fields then with_logged [mismatch_record] w else w,
     inr (issue_page sep encode Date_parse issue fields)).
Proof.
  intros Hf [Hres Hcom]. unfold format_issue. rewrite Hf. cbn [truthy].
  set (h := lit "<h1>" ++ Issue.key issue ++ lit ": " ++ Fields.summary fields
              ++ lit "</h1>" ++ LF).
  erewrite (bind_value _ _ w w (h ++ resolution_section Date_parse fields)).
  2:{ unfold resolution_section, resolution_html.
      destruct (Fields.resolution fields) as [| |r] eqn:Er; cbn [truthy];
        try (by rewrite app_nil_r).
      erewrite bind_value by (apply toISOString_valid; by eapply Hres).
      unfold mret, M_ret. by rewrite <- !app_assoc. }
  unfold issue_page. fold (heading issue fields) in h. subst h.
  set (out1 := heading issue fields ++ resolution_section Date_parse fields).
  assert (match truthy (Fields.fixVersions fields) with
          | Some (fv :: fvs) =>
              format_fix_versions (fv :: fvs) (out1 ++ lit "<h2>Fix Versions</h2>" ++ LF)
          | _ => out1
          end = out1 ++ fix_versions_section fields) as ->.
  { unfold fix_versions_section.
    destruct (Fields.fixVersions fields) as [| |[|fv fvs]]; cbn [truthy];
      try (by rewrite app_nil_r).
    rewrite format_fix_versions_spec. by rewrite <- !app_assoc. }
  set (out2 := out1 ++ fix_versions_section fields).
  unfold description_section, description_html, comments_section,
    comment_count_mismatch.
  destruct (Fields.description fields) as [| |[|c d]]; cbn [truthy_string];
    destruct (Fields.comment fields) as [| |cp] eqn:Ec; cbn [truthy];
    try (unfold mret, M_ret; do 2 f_equal; subst out2 out1;
         by rewrite ?app_nil_r, <- ?app_assoc).
  all: destruct (negb (CommentPage.maxResults cp =? CommentPage.total cp)%Z);
    (erewrite bind_value by reflexivity);
    rewrite format_comments_all by (by apply Hcom);
    do 2 f_equal; subst out2 out1; by rewrite ?app_nil_r, <- ?app_assoc.
Qed.

Lemma starts_with_app p s : starts_with p (p ++ s) = true.
Proof. induction p as [|c p IH]; simpl; [done|]. by rewrite N.eqb_refl. Qed.

(** C7, as stated, fails: an issue with a resolution and no resolution date
    makes the composer throw, and an empty array of fix versions or an empty
    description is present without its section being shown. *)
Lemma format_issue_counterexample :
  snd (run (format_issue re_crlf_opt ent_encode Example.Date_parse
              (Example.issue Example.resolved_undated)))
  = inl RangeError
  ∧ run (format_issue re_crlf_opt ent_encode Example.Date_parse
           (Example.issue Example.empty_fields))
    = (World.init, inr (lit "<h1>ABC-1: Summary</h1>" ++ LF)).
Proof. by vm_compute. Qed.

(** C7, amended: for an issue all of whose shown dates are valid, the
    composer returns (it does not throw) the heading followed by the four
    optional sections in order; the Resolution section is shown exactly when
    [resolution] is present, the Fix Versions section exactly when
    [fixVersions] is a non-empty array, the Description section exactly when
    [description] is a non-empty string, and the Comments section exactly
    when [comment] is present; a section that is not shown is empty. *)
Theorem format_issue_sections sep encode Date_parse issue fields w :
  Issue.fields issue = Val fields →
  dates_valid Date_parse fields →
  ∃ w',
    format_issue sep encode Date_parse issue w
    = (w', inr (heading issue fields
                  ++ resolution_section Date_parse fields
                  ++ fix_versions_section fields
                  ++ description_section sep encode fields
                  ++ comments_section sep encode Date_parse fields))
    ∧ match Fields.resolution fields with
      | Val _ => shown (lit "Resolution") (resolution_section Date_parse fields)
      | _ => resolution_section Date_parse fields = []
      end
    ∧ match Fields.fixVersions fields with
      | Val (_ :: _) => shown (lit "Fix Versions") (fix_versions_section fields)
      | _ => fix_versions_section fields = []
      end
    ∧ match Fields.description fields with
      | Val (_ :: _) => shown (lit "Description") (description_section sep encode fields)
      | _ => description_section sep encode fields = []
      end
    ∧ match Fields.comment fields with
      | Val _ => shown (lit "Comments") (comments_section sep encode Date_parse fields)
      | _ => comments_section sep encode Date_parse fields = []
      end.
Proof.
  intros Hf Hv. eexists. split; [by apply format_issue_page|].
  unfold resolution_section, fix_versions_section, description_section,
    comments_section.
  repeat split.
  - by destruct (Fields.resolution fields).
  - by destruct (Fields.fixVersions fields) as [| |[|fv fvs]].
  - by destruct (Fields.description fields) as [| |[|c d]].
  - by destruct (Fields.comment fields).
Qed.

Lemma example_dates_valid : dates_valid Example.Date_parse Example.full_fields.
Proof.
  split.
  - intros r _. by eexists.
  - intros c [= <-]. repeat constructor; try (by eexists);
      intros u [= <-] _ _; by eexists.
Qed.

Lemma format_issue_sections_witness :
  ∃ w', format_issue re_crlf_opt ent_encode Example.Date_parse
          (Example.issue Example.full_fields) World.init
        = (w', inr (issue_page re_crlf_opt ent_encode Example.Date_parse
                      (Example.issue Example.full_fields) Example.full_fields)).
Proof.
  destruct (format_issue_sections re_crlf_opt ent_encode Example.Date_parse
              (Example.issue Example.full_fields) Example.full_fields World.init
              eq_refl example_dates_valid) as (w' & H & _).
  by exists w'.
Defined.

(** ** Unescaped fields *)

Lemma contains_refl a : contains a a.
Proof. exists [], []. by rewrite app_nil_r. Qed.

Lemma contains_app_r a x b : contains a b → contains a (x ++ b).
Proof. intros (u & v & ->). exists (x ++ u), v. by rewrite <- app_assoc. Qed.

Lemma contains_app_l a b y : contains a b → contains a (b ++ y).
Proof. intros (u & v & ->). exists u, (v ++ y). by rewrite <- !app_assoc. Qed.

Lemma contains_concat a (l : list jsstring) : a ∈ l → contains a (concat l).
Proof.
  intros (l1 & l2 & ->)%list_elem_of_split.
  rewrite concat_app, concat_cons. apply contains_app_r, contains_app_l, contains_refl.
Qed.

Lemma contains_trans a b c : contains a b → contains b c → contains a c.
Proof.
  intros (u & v & ->) (x & y & ->). exists (x ++ u), (v ++ y).
  by rewrite <- !app_assoc.
Qed.

Lemma elem_of_map {A B} (f : A → B) l x : x ∈ l → f x ∈ map f l.
Proof. rewrite !list_elem_of_In. apply in_map. Qed.

Lemma index_rows_spec issues tbody :
  index_rows issues tbody = tbody ++ concat (map index_row issues).
Proof.
  revert tbody. induction issues as [|i issues IH]; intros tbody;
    cbn [index_rows map concat].
  - by rewrite app_nil_r.
  - rewrite IH. unfold index_row. by rewrite <- !app_assoc.
Qed.

(** C10: the composed page holds the key and the summary, the name and the
    description of the resolution, the name and the release date of every
    fix version and the display name of the author of every comment as they
    are in the document; the description and the bodies of the comments are
    there as the renderer gives them; and every row of the index table holds
    the key and the summary of its issue as they are. *)
Theorem fields_embedded_unescaped sep encode Date_parse issue fields w :
  Issue.fields issue = Val fields →
  dates_valid Date_parse fields →
  ∃ w' page,
    format_issue sep encode Date_parse issue w = (w', inr page)
    ∧ (∃ rest, page = lit "<h1>" ++ Issue.key issue ++ lit ": "
                        ++ Fields.summary fields ++ lit "</h1>" ++ LF ++ rest)
    ∧ (∀ r, Fields.resolution fields = Val r →
         contains (lit "<p><b>" ++ Resolution.name r ++ lit ":</b> "
                     ++ Resolution.description r ++ lit "<br>" ++ LF) page)
    ∧ (∀ fvs fv, Fields.fixVersions fields = Val fvs → fv ∈ fvs →
         contains (lit "<p><b>" ++ FixVersion.name fv
                     ++ lit "</b> (Release Date: "
                     ++ to_string (FixVersion.releaseDate fv)
                     ++ lit ")</p>" ++ LF) page)
    ∧ (∀ c com, Fields.comment fields = Val c → com ∈ CommentPage.comments c →
         contains (lit "Comment by " ++ Author.displayName (Comment.author com)
                     ++ lit "<br>" ++ LF) page
         ∧ contains (lit "</b>" ++ format_markup sep encode (Comment.body com)
                       ++ lit "</div><br>" ++ LF) page)
    ∧ (∀ d, truthy_string (Fields.description fields) = Some d →
         contains (lit "<div>" ++ format_markup sep encode d
                     ++ lit "</div>" ++ LF) page)
    ∧ (∀ issues row tbody, row ∈ issues →
         contains (lit "<tr><td><a href=" ++ DQ ++ IssueSummary.key row ++ DQ
                     ++ lit ">" ++ IssueSummary.key row ++ lit "</a></td><td>"
                     ++ SummaryFields.summary (IssueSummary.fields row)
                     ++ lit "</td></tr>" ++ LF)
                  (index_rows issues tbody)).
Proof.
  intros Hf Hv. eexists _, _. split; [by apply format_issue_page|].
  unfold issue_page. repeat split.
  - eexists. unfold heading. by rewrite <- !app_assoc.
  - intros r Hr. apply contains_app_r, contains_app_l.
    unfold resolution_section. rewrite Hr.
    do 2 apply contains_app_r. apply contains_app_l, contains_refl.
  - intros fvs fv Hfvs Hfv. do 2 apply contains_app_r. apply contains_app_l.
    unfold fix_versions_section. rewrite Hfvs.
    destruct fvs as [|fv0 fvs0]; [by apply elem_of_nil in Hfv|].
    do 2 apply contains_app_r.
    by apply contains_concat, (elem_of_map fix_version_html).
  - do 4 apply contains_app_r. unfold comments_section. rewrite H.
    do 2 apply contains_app_r. unfold comments_html.
    apply list_elem_of_lookup in H0 as [i Hi].
    apply (contains_trans _ (comment_html sep encode Date_parse i com)).
    + unfold comment_html. do 9 apply contains_app_r.
      apply contains_app_l, contains_refl.
    + apply contains_concat. apply list_elem_of_lookup. exists i.
      by rewrite list_lookup_imap, Hi.
  - do 4 apply contains_app_r. unfold comments_section. rewrite H.
    do 2 apply contains_app_r. unfold comments_html.
    apply list_elem_of_lookup in H0 as [i Hi].
    apply (contains_trans _ (comment_html sep encode Date_parse i com)).
    + unfold comment_html. do 15 apply contains_app_r. apply contains_refl.
    + apply contains_concat. apply list_elem_of_lookup. exists i.
      by rewrite list_lookup_imap, Hi.
  - intros d Hd. do 3 apply contains_app_r. apply contains_app_l.
    unfold description_section.
    destruct (Fields.description fields) as [| |[|c d']]; try done.
    injection Hd as <-. do 2 apply contains_app_r. apply contains_refl.
  - intros issues row tbody Hrow. rewrite index_rows_spec.
    apply contains_app_r, contains_concat. by apply (elem_of_map index_row).
Qed.

Lemma fields_embedded_unescaped_witness :
  ∃ w' page,
    format_issue re_crlf_opt ent_encode Example.Date_parse
      (Example.issue Example.full_fields) World.init = (w', inr page)
    ∧ contains (lit "<h1>ABC-1: <b>Summary</b></h1>") page
    ∧ contains (lit "<div>&#60;b&#62;text&#60;/b&#62;<br>" ++ LF ++ lit "</div>") page.
Proof.
  destruct (fields_embedded_unescaped re_crlf_opt ent_encode Example.Date_parse
              (Example.issue Example.full_fields) Example.full_fields World.init
              eq_refl example_dates_valid)
    as (w' & page & H & [rest Hh] & _ & _ & _ & Hd & _).
  exists w', page. split; [done|]. split.
  - rewrite Hh. exists [], (LF ++ rest). by vm_compute.
  - eapply contains_trans; [|by apply (Hd (lit "<b>text</b>"))].
    exists [], LF. by vm_compute.
Defined.

(** ** The single-issue handler *)

Lemma truthy_absent {A} (m : maybe A) : truthy m = None ↔ absent m.
Proof.
  unfold absent. destruct m; simpl; split; intros H;
    try done; try (by left); try (by right); by destruct H.
Qed.

Lemma expected_format_none obj : expected_format obj = None ↔ lacks_labels obj.
Proof.
  unfold expected_format, lacks_labels, absent. split.
  - destruct obj as [| |issue]; simpl; [by left; left | by left; right |].
    destruct (Issue.fields issue) as [| |fields] eqn:Ef; simpl;
      [intros _; right; exists issue; split; [done|left; by left]
      |intros _; right; exists issue; split; [done|left; by right] |].
    destruct (Fields.labels fields) as [| |labels] eqn:El; simpl; [| |done];
      intros _; right; exists issue; (split; [done|]); right;
      exists fields; (split; [done|]); rewrite El; [by left | by right].
  - intros [[->| ->]|(issue & -> & [[E|E]|(fields & Ef & [E|E])])]; simpl;
      rewrite ?E, ?Ef; simpl; rewrite ?E; done.
Qed.

Lemma IssueKey_truthy key : IssueKey key → truthy_string (Val key) = Some key.
Proof. intros (l & d & -> & Hl & _). by destruct l. Qed.

(** A request with a valid key asks JIRA for the issue and hands the reply
    to the callback. *)
Lemma handle_issue_valid_key encode Date_parse CONFIG TEMPLATES JIRA req key :
  Request.params_key req = Val key → IssueKey key →
  run (handle_issue encode Date_parse CONFIG TEMPLATES JIRA req)
  = handle_issue_reply encode Date_parse CONFIG TEMPLATES
      (Jira.issue JIRA (issue_url CONFIG key))
      (with_requested [issue_url CONFIG key] World.init).
Proof.
  intros Hk Hkey. unfold run, handle_issue.
  rewrite Hk, (IssueKey_truthy key Hkey).
  apply re_issue_key_spec in Hkey as ->. reflexivity.
Qed.

(** C3: a request whose key is missing, empty or not an issue key is
    answered with status 400, and JIRA is not asked anything. *)
Theorem handle_issue_rejects_invalid_key encode Date_parse CONFIG TEMPLATES JIRA req :
  (∀ key, Request.params_key req = Val key → ¬ IssueKey key) →
  let result := run (handle_issue encode Date_parse CONFIG TEMPLATES JIRA req) in
  result = (refused 400 None [] [invalid_key_record], inr tt)
  ∧ status result = Some 400%Z
  ∧ World.requested (fst result) = [].
Proof.
  intros Hkey result.
  assert (result = (refused 400 None [] [invalid_key_record], inr tt)) as ->; [|done].
  unfold result, run, handle_issue.
  destruct (Request.params_key req) as [| |[|c k]] eqn:Ek; try reflexivity.
  cbn [truthy_string].
  destruct (re_issue_key (c :: k)) eqn:Er; [|reflexivity].
  apply re_issue_key_spec in Er. by destruct (Hkey (c :: k)).
Qed.

Lemma not_IssueKey s : re_issue_key s = false → ¬ IssueKey s.
Proof. intros H Hk. apply re_issue_key_spec in Hk. congruence. Qed.

Lemma handle_issue_rejects_invalid_key_witness :
  status (run (handle_issue ent_encode Example.Date_parse Example.CONFIG
                 Example.TEMPLATES
                 (Example.JIRA (Example.found (Example.issue Example.full_fields)))
                 (Example.request (lit "abc-1"))))
  = Some 400%Z.
Proof.
  apply (handle_issue_rejects_invalid_key ent_encode Example.Date_parse
           Example.CONFIG Example.TEMPLATES _ (Example.request (lit "abc-1"))).
  intros key [= <-]. by apply not_IssueKey.
Defined.

(** The keys of the specification that are not issue keys. *)
Example invalid_keys :
  ¬ IssueKey (lit "abc-1") ∧ ¬ IssueKey (lit "ABC1") ∧ ¬ IssueKey (lit "")
  ∧ IssueKey (lit "ABC-1").
Proof.
  repeat split; try (by apply not_IssueKey). by apply re_issue_key_spec.
Qed.

(** C4: for a request with a valid key, an upstream error named
    [NotFoundError] is answered with status 404 and the fixed body; any other
    upstream error with status 500 and no body; and a document that lacks
    [fields] or [fields.labels] with status 500 and no body. *)
Theorem handle_issue_upstream_outcomes encode Date_parse CONFIG TEMPLATES JIRA req key :
  Request.params_key req = Val key →
  IssueKey key →
  let reply := Jira.issue JIRA (issue_url CONFIG key) in
  let result := run (handle_issue encode Date_parse CONFIG TEMPLATES JIRA req) in
  (∀ e, Reply.err reply = Val e → JiraError.name e = lit "NotFoundError" →
     result = (refused 404 (Some (lit "Sorry, that issue does not exist." ++ LF))
                 [issue_url CONFIG key]
                 [log_record req_log error (lit "could not find issue")],
               inr tt))
  ∧ (∀ e, Reply.err reply = Val e → JiraError.name e ≠ lit "NotFoundError" →
       result = (refused 500 None [issue_url CONFIG key]
                   [log_record req_log error (lit "error communicating with JIRA")],
                 inr tt))
  ∧ (absent (Reply.err reply) → lacks_labels (Reply.obj reply) →
       result = (refused 500 None [issue_url CONFIG key]
                   [log_record req_log error
                      (lit "JIRA issue did not have expected format")],
                 inr tt)).
Proof.
  intros Hk Hkey reply result. unfold result.
  rewrite (handle_issue_valid_key _ _ _ _ _ _ key Hk Hkey).
  fold reply. unfold handle_issue_reply. repeat split.
  - intros e He Hn. rewrite He. cbn [truthy]. by rewrite Hn, str_eqb_refl.
  - intros e He Hn. rewrite He. cbn [truthy].
    destruct (str_eqb _ _) eqn:E; [by apply str_eqb_eq in E | done].
  - intros He Ho. apply truthy_absent in He as ->.
    by apply expected_format_none in Ho as ->.
Qed.

Lemma handle_issue_upstream_outcomes_witness :
  run (handle_issue ent_encode Example.Date_parse Example.CONFIG Example.TEMPLATES
         (Example.JIRA (Example.failed (lit "NotFoundError")))
         (Example.request (lit "ABC-999")))
  = (refused 404 (Some (lit "Sorry, that issue does not exist." ++ LF))
       [lit "/rest/api/2/issue/ABC-999"]
       [log_record req_log error (lit "could not find issue")],
     inr tt).
Proof.
  destruct (handle_issue_upstream_outcomes ent_encode Example.Date_parse
              Example.CONFIG Example.TEMPLATES
              (Example.JIRA (Example.failed (lit "NotFoundError")))
              (Example.request (lit "ABC-999")) (lit "ABC-999") eq_refl
              ltac:(by apply re_issue_key_spec)) as (H & _ & _).
  exact (H {| JiraError.name := lit "NotFoundError" |} eq_refl eq_refl).
Defined.

(** An upstream error of another name, and a document without [fields]. *)
Example handle_issue_upstream_failures :
  status (run (handle_issue ent_encode Example.Date_parse Example.CONFIG
                 Example.TEMPLATES
                 (Example.JIRA (Example.failed (lit "RequestTimeoutError")))
                 (Example.request (lit "ABC-1"))))
  = Some 500%Z
  ∧ run (handle_issue ent_encode Example.Date_parse Example.CONFIG
           Example.TEMPLATES
           (Example.JIRA (Example.found
              {| Issue.key := lit "ABC-1"; Issue.fields := Undefined |}))
           (Example.request (lit "ABC-1")))
    = (refused 500 None [lit "/rest/api/2/issue/ABC-1"]
         [log_record req_log error (lit "JIRA issue did not have expected format")],
       inr tt).
Proof. by vm_compute. Qed.

(** C1: for a fetched document with labels, the page is served (status 200)
    only if the configured label is one of the labels; otherwise the answer
    is status 403 with the fixed body, whatever the issue holds: nothing is
    composed, logged or thrown on account of the issue. *)
Theorem handle_issue_requires_label encode Date_parse CONFIG TEMPLATES JIRA req key
    issue labels :
  Request.params_key req = Val key →
  IssueKey key →
  absent (Reply.err (Jira.issue JIRA (issue_url CONFIG key))) →
  expected_format (Reply.obj (Jira.issue JIRA (issue_url CONFIG key)))
  = Some (issue, labels) →
  let result := run (handle_issue encode Date_parse CONFIG TEMPLATES JIRA req) in
  (Config.label CONFIG ∉ labels →
     result = (refused 403 (Some (lit "Sorry, this issue is not public." ++ LF))
                 [issue_url CONFIG key]
                 [log_record req_log error (lit "request for non-public issue")],
               inr tt))
  ∧ (status result = Some 200%Z → Config.label CONFIG ∈ labels).
Proof.
  intros Hk Hkey He Ho result.
  assert (Config.label CONFIG ∉ labels →
          result = (refused 403 (Some (lit "Sorry, this issue is not public." ++ LF))
                      [issue_url CONFIG key]
                      [log_record req_log error (lit "request for non-public issue")],
                    inr tt)) as H403.
  { intros Hl. unfold result.
    rewrite (handle_issue_valid_key _ _ _ _ _ _ key Hk Hkey).
    unfold handle_issue_reply. apply truthy_absent in He as ->. rewrite Ho.
    by apply indexOf_not_found in Hl as ->. }
  split; [done|]. intros Hs.
  destruct (decide (Config.label CONFIG ∈ labels)) as [|Hl]; [done|].
  by rewrite (H403 Hl) in Hs.
Qed.

Lemma handle_issue_requires_label_witness :
  run (handle_issue ent_encode Example.Date_parse Example.CONFIG Example.TEMPLATES
         (Example.JIRA (Example.found (Example.issue Example.private_fields)))
         (Example.request (lit "ABC-1")))
  = (refused 403 (Some (lit "Sorry, this issue is not public." ++ LF))
       [lit "/rest/api/2/issue/ABC-1"]
       [log_record req_log error (lit "request for non-public issue")],
     inr tt).
Proof.
  destruct (handle_issue_requires_label ent_encode Example.Date_parse
              Example.CONFIG Example.TEMPLATES
              (Example.JIRA (Example.found (Example.issue Example.private_fields)))
              (Example.request (lit "ABC-1")) (lit "ABC-1")
              (Example.issue Example.private_fields) [lit "Public"; lit "internal"]
              eq_refl ltac:(by apply re_issue_key_spec) ltac:(by right) eq_refl)
    as [H _].
  exact (H ltac:(by apply indexOf_not_found)).
Defined.

(** The oldest revision asks for the label [public] whatever the
    configuration says. *)
Example legacy_ignores_configured_label :
  status (run (Legacy.handle_issue Example.Date_parse
                 {| Config.username := lit "u"; Config.password := lit "p";
                    Config.url := {| Url.base := lit "b"; Url.path := lit "/p" |};
                    Config.label := lit "internal"; Config.port := 80%Z |}
                 (Example.JIRA (Example.found (Example.issue Example.private_fields)))
                 (Example.request (lit "ABC-1"))))
  = Some 403%Z.
Proof. by vm_compute. Qed.

(** A request for a public issue with valid dates is answered with the
    primary template around the composed page. *)
Lemma handle_issue_serves encode Date_parse CONFIG TEMPLATES JIRA req key
    issue fields labels primary :
  Request.params_key req = Val key →
  IssueKey key →
  fetched JIRA CONFIG key issue →
  Issue.fields issue = Val fields →
  Fields.labels fields = Val labels →
  Config.label CONFIG ∈ labels →
  TEMPLATES !! lit "primary" = Some primary →
  dates_valid Date_parse fields →
  run (handle_issue encode Date_parse CONFIG TEMPLATES JIRA req)
  = (served (replace (lit "%%CONTAINER%%")
               (issue_page re_crlf_opt encode Date_parse issue fields) primary)
       [issue_url CONFIG key]
       (log_record req_log info (lit "serving issue")
          :: if comment_count_mismatch fields then [mismatch_record] else []),
     inr tt).
Proof.
  intros Hk Hkey [He Ho] Hf Hl Hpub Htpl Hv.
  rewrite (handle_issue_valid_key _ _ _ _ _ _ key Hk Hkey).
  unfold handle_issue_reply. apply truthy_absent in He as ->.
  unfold expected_format. rewrite Ho. cbn [truthy]. rewrite Hf. cbn [truthy].
  rewrite Hl. cbn [truthy].
  apply indexOf_found in Hpub as ->.
  erewrite bind_value by reflexivity.
  erewrite bind_value by (unfold template; rewrite Htpl; reflexivity).
  erewrite bind_value by (by apply format_issue_page).
  by destruct (comment_count_mismatch fields).
Qed.

(** The issue [ABC-1] of the specification: status 200 and a body with its
    heading. *)
Example handle_issue_serves_heading :
  let result :=
    run (handle_issue ent_encode Example.Date_parse Example.CONFIG Example.TEMPLATES
           (Example.JIRA (Example.found
              (Example.issue (Example.bare_fields (lit "Summary")))))
           (Example.request (lit "ABC-1"))) in
  status result = Some 200%Z
  ∧ Response.body (World.res (fst result))
    = Some (lit "<html><body><h1>ABC-1: Summary</h1>" ++ LF ++ lit "</body></html>").
Proof. by vm_compute. Qed.

(** ** Comments *)

Lemma updated_line_shown Date_parse com :
  updated_line Date_parse com ≠ [] ↔ shows_update com.
Proof.
  unfold updated_line, shows_update.
  destruct (Comment.updated com) as [| |[|c u]] eqn:E.
  - split; [done | by intros (u & ? & _)].
  - split; [done | by intros (u & ? & _)].
  - split; [done | by intros (u & [= <-] & ? & _)].
  - destruct (str_eqb (c :: u) (Comment.created com)) eqn:Eq.
    + apply str_eqb_eq in Eq. split; [done|]. by intros (u' & [= <-] & _ & ?).
    + split.
      * intros _. exists (c :: u). repeat split; [done|].
        intros Hc. apply str_eqb_eq in Hc. congruence.
      * intros _. change (lit "Updated at ") with (85 :: lit "pdated at "). done.
Qed.

Lemma shade_alternates :
  shade 0 = lit "#EEEEEE" ∧ shade 1 = lit "#DDDDDD" ∧ ∀ i, shade (S (S i)) = shade i.
Proof. done. Qed.

(** C8: when the counts of the comment page disagree, a request for a public
    issue with valid dates is still answered with status 200, after one
    request to JIRA and with the disagreement logged; the page put into the
    template ends with the Comments section, which holds one block per
    comment of the array, in the order of the array, shaded light and dark in
    turn from light; a block has its line on the update exactly when
    [updated] is a non-empty string other than [created]. *)
Theorem handle_issue_comment_count_mismatch encode Date_parse CONFIG TEMPLATES JIRA
    req key issue fields labels c primary :
  Request.params_key req = Val key →
  IssueKey key →
  fetched JIRA CONFIG key issue →
  Issue.fields issue = Val fields →
  Fields.labels fields = Val labels →
  Config.label CONFIG ∈ labels →
  TEMPLATES !! lit "primary" = Some primary →
  dates_valid Date_parse fields →
  Fields.comment fields = Val c →
  CommentPage.maxResults c ≠ CommentPage.total c →
  let page := issue_page re_crlf_opt encode Date_parse issue fields in
  run (handle_issue encode Date_parse CONFIG TEMPLATES JIRA req)
  = (served (replace (lit "%%CONTAINER%%") page primary)
       [issue_url CONFIG key]
       [log_record req_log info (lit "serving issue"); mismatch_record],
     inr tt)
  ∧ (∃ sections,
       page = sections ++ lit "<h2>Comments</h2>" ++ LF
                ++ concat (imap (comment_html re_crlf_opt encode Date_parse)
                             (CommentPage.comments c)))
  ∧ (shade 0 = lit "#EEEEEE" ∧ shade 1 = lit "#DDDDDD"
     ∧ ∀ i, shade (S (S i)) = shade i)
  ∧ (∀ com, updated_line Date_parse com ≠ [] ↔ shows_update com).
Proof.
  intros Hk Hkey Hfetched Hf Hl Hpub Htpl Hv Hc Hne page.
  split; [|split; [|split]].
  - rewrite (handle_issue_serves encode Date_parse CONFIG TEMPLATES JIRA req key
               issue fields labels primary) by done.
    unfold comment_count_mismatch. rewrite Hc.
    by apply Z.eqb_neq in Hne as ->.
  - unfold page, issue_page, comments_section. rewrite Hc.
    eexists. rewrite !app_assoc. reflexivity.
  - apply shade_alternates.
  - intros com. apply updated_line_shown.
Qed.

Lemma handle_issue_comment_count_mismatch_witness :
  let result :=
    run (handle_issue ent_encode Example.Date_parse Example.CONFIG Example.TEMPLATES
           (Example.JIRA (Example.found (Example.issue Example.full_fields)))
           (Example.request (lit "ABC-1"))) in
  status result = Some 200%Z
  ∧ World.requested (fst result) = [lit "/rest/api/2/issue/ABC-1"]
  ∧ World.logged (fst result)
    = [log_record req_log info (lit "serving issue"); mismatch_record].
Proof.
  intros result.
  destruct (handle_issue_comment_count_mismatch ent_encode Example.Date_parse
              Example.CONFIG Example.TEMPLATES
              (Example.JIRA (Example.found (Example.issue Example.full_fields)))
              (Example.request (lit "ABC-1")) (lit "ABC-1")
              (Example.issue Example.full_fields) Example.full_fields
              [lit "public"] Example.comments
              (lit "<html><body>%%CONTAINER%%</body></html>")
              eq_refl ltac:(by apply re_issue_key_spec)
              ltac:(split; [by right | done]) eq_refl eq_refl
              ltac:(by apply indexOf_found) ltac:(by vm_compute)
              example_dates_valid eq_refl ltac:(done)) as [H _].
  unfold result. rewrite H. done.
Defined.

(** ** Content-Length *)

Lemma keeps_response_ret {A} (a : A) : keeps_response (mret a).
Proof. done. Qed.

Lemma keeps_response_throw {A} e : keeps_response (@throw A e).
Proof. done. Qed.

Lemma keeps_response_log l v m : keeps_response (write_log l v m).
Proof. done. Qed.

Lemma keeps_response_toISOString d : keeps_response (toISOString d).
Proof. by destruct d. Qed.

Lemma keeps_response_bind {A B} (m : M A) (f : A → M B) :
  keeps_response m → (∀ a, keeps_response (f a)) → keeps_response (m ≫= f).
Proof.
  intros Hm Hf w. unfold mbind, M_bind. specialize (Hm w).
  destruct (m w) as [w' [e|a]]; simpl in *; [done|]. by rewrite Hf.
Qed.

Lemma keeps_response_format_comments sep encode Date_parse coms dark out :
  keeps_response (format_comments sep encode Date_parse coms dark out).
Proof.
  revert dark out. induction coms as [|com coms IH]; intros dark out.
  - apply keeps_response_ret.
  - cbn [format_comments].
    apply keeps_response_bind; [apply keeps_response_toISOString|]. intros iso_text.
    apply keeps_response_bind; [|intros o; apply IH].
    destruct (truthy_string (Comment.updated com)); [|apply keeps_response_ret].
    destruct (negb _); [|apply keeps_response_ret].
    apply keeps_response_bind; [apply keeps_response_toISOString|]. intros u.
    apply keeps_response_ret.
Qed.

(** The composer does not touch the response, whether it returns or throws. *)
Lemma keeps_response_format_issue sep encode Date_parse issue :
  keeps_response (format_issue sep encode Date_parse issue).
Proof.
  unfold format_issue.
  destruct (truthy (Issue.fields issue)) as [fields|]; [|apply keeps_response_throw].
  apply keeps_response_bind.
  - destruct (truthy (Fields.resolution fields)); [|apply keeps_response_ret].
    apply keeps_response_bind; [apply keeps_response_toISOString|]. intros iso_text.
    apply keeps_response_ret.
  - intros out. cbn zeta.
    destruct (truthy (Fields.comment fields)) as [c|]; [|apply keeps_response_ret].
    apply keeps_response_bind.
    + destruct (negb _); [apply keeps_response_log | apply keeps_response_ret].
    + intros _. apply keeps_response_format_comments.
Qed.

Lemma handle_issue_reply_response_cases encode Date_parse CONFIG TEMPLATES reply w :
  World.res w = Response.empty →
  let w' := fst (handle_issue_reply encode Date_parse CONFIG TEMPLATES reply w) in
  (∃ out, World.res w' = page_response out)
  ∨ Response.statusCode (World.res w') ≠ Some 200%Z.
Proof.
  intros Hw w'. subst w'. unfold handle_issue_reply.
  destruct (truthy (Reply.err reply)) as [e|].
  { destruct (str_eqb _ _); right; by cbv. }
  destruct (expected_format _) as [[issue labels]|]; [|right; by cbv].
  destruct (_ =? _)%Z; [right; by cbv|].
  set (w1 := with_logged [log_record req_log info (lit "serving issue")] w).
  rewrite (bind_value _ _ w w1 tt) by reflexivity.
  unfold template. destruct (TEMPLATES !! lit "primary") as [tpl|].
  2:{ right. erewrite bind_exception by reflexivity. cbn. by rewrite Hw. }
  erewrite bind_value by reflexivity.
  pose proof (keeps_response_format_issue re_crlf_opt encode Date_parse issue w1) as Hres.
  destruct (format_issue _ _ _ _ w1) as [w2 [ex|page]] eqn:Ef; cbn [fst] in Hres.
  - right. erewrite bind_exception by apply Ef. cbn. rewrite Hres. cbn. by rewrite Hw.
  - left. erewrite bind_value by apply Ef. eexists.
    unfold mbind, M_bind. cbn. rewrite Hres. cbn. rewrite Hw. reflexivity.
Qed.

Lemma handle_issue_response_cases encode Date_parse CONFIG TEMPLATES JIRA req :
  let w := fst (run (handle_issue encode Date_parse CONFIG TEMPLATES JIRA req)) in
  (∃ out, World.res w = page_response out)
  ∨ Response.statusCode (World.res w) ≠ Some 200%Z.
Proof.
  intros w. subst w.
  destruct (Request.params_key req) as [| |[|c k]] eqn:Ek;
    try (right; unfold run, handle_issue; rewrite Ek; by cbv).
  destruct (re_issue_key (c :: k)) eqn:Er.
  - apply re_issue_key_spec in Er.
    rewrite (handle_issue_valid_key _ _ _ _ _ _ (c :: k) Ek Er).
    by apply handle_issue_reply_response_cases.
  - right. unfold run, handle_issue. rewrite Ek. cbn [truthy_string]. rewrite Er.
    by cbv.
Qed.

(** Whenever the single-issue handler answers with status 200, the response
    is the page with its headers: the content type is [text/html] and the
    content length is the length of the body in UTF-16 code units. *)
Lemma handle_issue_page_response encode Date_parse CONFIG TEMPLATES JIRA req :
  let result := run (handle_issue encode Date_parse CONFIG TEMPLATES JIRA req) in
  status result = Some 200%Z →
  ∃ out, World.res (fst result) = page_response out.
Proof.
  intros result Hs.
  by destruct (handle_issue_response_cases encode Date_parse CONFIG TEMPLATES JIRA req).
Qed.

Lemma handle_issue_index_response_cases CONFIG TEMPLATES JIRA req :
  let w := fst (run (handle_issue_index CONFIG TEMPLATES JIRA req)) in
  (∃ out, World.res w = page_response out)
  ∨ Response.statusCode (World.res w) ≠ Some 200%Z.
Proof.
  intros w. subst w. unfold run, handle_issue_index.
  erewrite bind_value by reflexivity.
  destruct (truthy (Reply.err _)) as [e|]; [right; by cbv|].
  erewrite bind_value by reflexivity.
  unfold template.
  destruct (TEMPLATES !! lit "issue_index");
    [|right; erewrite bind_exception by reflexivity; by cbv].
  erewrite bind_value by reflexivity.
  destruct (truthy (Reply.obj _));
    [|right; erewrite bind_exception by reflexivity; by cbv].
  erewrite bind_value by reflexivity.
  destruct (TEMPLATES !! lit "primary");
    [|right; erewrite bind_exception by reflexivity; by cbv].
  erewrite bind_value by reflexivity.
  left. eexists. unfold mbind, M_bind. cbn. reflexivity.
Qed.

(** The same for the index handler. *)
Lemma handle_issue_index_page_response CONFIG TEMPLATES JIRA req :
  let result := run (handle_issue_index CONFIG TEMPLATES JIRA req) in
  status result = Some 200%Z →
  ∃ out, World.res (fst result) = page_response out.
Proof.
  intros result Hs.
  by destruct (handle_issue_index_response_cases CONFIG TEMPLATES JIRA req).
Qed.

(** A string of ASCII characters has as many bytes as code units. *)
Lemma byte_length_ascii s :
  Forall (λ c, c < 128) s → byte_length s = length s.
Proof.
  unfold byte_length. induction 1 as [|c s Hc _ IH]; [done|].
  cbn [utf8_encode].
  assert (is_high_surrogate c = false) as ->.
  { unfold is_high_surrogate. chars. }
  assert (is_low_surrogate c = false) as ->.
  { unfold is_low_surrogate. chars. }
  unfold utf8_code_point. destruct (N.ltb_spec c 128); [|lia].
  simpl. by rewrite IH.
Qed.

(** C9: with a summary that has a letter outside ASCII, both handlers answer
    with status 200 and content type [text/html], and set the content length
    to the number of UTF-16 code units of the body, one less than the number
    of bytes written. *)
Theorem content_length_undercounts_bytes :
  let issue_result :=
    run (handle_issue ent_encode Example.Date_parse Example.CONFIG Example.TEMPLATES
           (Example.JIRA (Example.found
              (Example.issue (Example.bare_fields Example.cafe))))
           (Example.request (lit "ABC-1"))) in
  let index_result :=
    run (handle_issue_index Example.CONFIG Example.TEMPLATES
           (Example.search_JIRA Example.search_results)
           (Example.request (lit "index.html"))) in
  (status issue_result = Some 200%Z
   ∧ Response.contentType (World.res (fst issue_result)) = Some (lit "text/html")
   ∧ Response.contentLength (World.res (fst issue_result)) = Some 47%nat
   ∧ base.fmap byte_length (Response.body (World.res (fst issue_result))) = Some 48%nat)
  ∧ (status index_result = Some 200%Z
     ∧ Response.contentType (World.res (fst index_result)) = Some (lit "text/html")
     ∧ Response.contentLength (World.res (fst index_result)) = Some 98%nat
     ∧ base.fmap byte_length (Response.body (World.res (fst index_result))) = Some 99%nat).
Proof. by vm_compute. Qed.

(** ** Templates *)

(** A replacement text without a dollar sign stands for itself. *)
Lemma get_substitution_plain matched before after repl :
  36 ∉ repl → get_substitution matched before after repl = repl.
Proof.
  induction repl as [|c r IH]; intros H; [done|].
  apply not_elem_of_cons in H as [Hc Hr]. cbn [get_substitution].
  destruct (N.eqb_spec c 36); [done|]. by rewrite IH.
Qed.

Lemma replace_from_skip pat repl a before s :
  replace_from pat repl (length a) before (a ++ s)
  = replace_from pat repl 0 (before ++ a) s.
Proof.
  revert before. induction a as [|c a IH]; intros before.
  - by rewrite app_nil_r.
  - cbn [length app replace_from]. rewrite IH. by rewrite <- app_assoc.
Qed.

(** A string without the first character of the pattern is left as it is. *)
Lemma replace_from_no_match h pat repl before s :
  h ∉ s → replace_from (h :: pat) repl 0 before s = s.
Proof.
  revert before. induction s as [|c s IH]; intros before H; [done|].
  apply not_elem_of_cons in H as [Hc Hs]. cbn [replace_from starts_with].
  destruct (N.eqb_spec h c); [done|]. cbn [andb]. by rewrite IH.
Qed.

(** A template that holds the marker once, and otherwise not even its first
    character, gets the replacement text in place of the marker. *)
Lemma replace_marker h pat repl pre post :
  h ∉ pre → h ∉ post →
  replace (h :: pat) repl (pre ++ (h :: pat) ++ post)
  = pre ++ get_substitution (h :: pat) pre post repl ++ post.
Proof.
  intros Hpre Hpost. unfold replace.
  assert (∀ before,
    replace_from (h :: pat) repl 0 before (pre ++ (h :: pat) ++ post)
    = pre ++ get_substitution (h :: pat) (before ++ pre) post repl ++ post) as H.
  { induction pre as [|c pre IH]; intros before.
    - rewrite app_nil_r. cbn [app replace_from].
      change (h :: pat ++ post) with ((h :: pat) ++ post).
      rewrite starts_with_app, drop_app_length.
      replace (length (h :: pat) - 1)%nat with (length pat) by (cbn [length]; lia).
      rewrite replace_from_skip. by rewrite replace_from_no_match.
    - apply not_elem_of_cons in Hpre as [Hc Hpre].
      cbn [app replace_from starts_with].
      destruct (N.eqb_spec h c); [done|]. cbn [andb].
      rewrite (IH Hpre). by rewrite <- app_assoc. }
  apply H.
Qed.

(** The page goes into the primary template as it is when it has no dollar
    sign; a dollar pattern in a field of the issue is expanded by [replace]. *)
Example page_in_template :
  replace (lit "%%CONTAINER%%") (lit "<h1>ABC-1: Summary</h1>")
    (lit "<html><body>%%CONTAINER%%</body></html>")
  = lit "<html><body><h1>ABC-1: Summary</h1></body></html>"
  ∧ replace (lit "%%CONTAINER%%") (lit "<h1>ABC-1: $&</h1>")
      (lit "<html><body>%%CONTAINER%%</body></html>")
    = lit "<html><body><h1>ABC-1: %%CONTAINER%%</h1></body></html>".
Proof. by vm_compute. Qed.

(** ** Start-up: the configuration *)

Lemma check_entries_object members keys :
  check_entries (JObj members) keys = inr tt
  ↔ Forall (λ k, json_truthy (member members k) = true) keys.
Proof.
  induction keys as [|k keys IH]; [done|].
  cbn [check_entries get_property]. unfold assert_ok.
  destruct (json_truthy (member members k)) eqn:E.
  - rewrite IH. split; [by constructor | by inversion 1].
  - split; [done|]. inversion 1; congruence.
Qed.

Lemma check_entries_not_object c k keys :
  (∀ members, c ≠ JObj members) → check_entries c (k :: keys) ≠ inr tt.
Proof. intros Hc. destruct c; try done. by destruct (Hc members). Qed.

Lemma check_url_object members p :
  check_url (JObj members) p = inr tt
  ↔ ∃ v, member members (lit "url") = Some v
         ∧ match v with
           | JObj url => json_truthy (member url p) = true
           | _ => False
           end.
Proof.
  unfold check_url. cbn [get_property].
  destruct (member members (lit "url")) as [[| | | | |url]|];
    cbn [get_property]; unfold assert_ok; cbn [json_truthy].
  6:{ destruct (json_truthy (member url p)) eqn:E.
      - split; [by eexists | done].
      - split; [done|]. intros (v & [= <-] & H). congruence. }
  all: split; [done|]; by intros (v & [= <-] & ?).
Qed.

(** X1: [read_config] returns the configuration, logging nothing, exactly
    when the document is an object whose [username], [password], [url],
    [label] and [port] and whose [url.base] and [url.path] are all truthy;
    for any other document it logs one error and exits with code 1. *)
Theorem read_config_complete c :
  (read_config c = ([], Returned c) ↔ config_complete c)
  ∧ (read_config c = ([], Returned c)
     ∨ read_config c
       = ([log_record LOG error (lit "configuration validation failed")],
          Exited 1)).
Proof.
  unfold read_config. split; [|by destruct (validate_config c) as [|[]]; [right|left]].
  assert (validate_config c = inr tt ↔ config_complete c) as <-.
  { unfold validate_config, config_complete.
    destruct c as [| | | | |members];
      try (split; [done | by intros (? & ? & ? & _)]).
    destruct (check_entries (JObj members) CHECK) as [ex|[]] eqn:E.
    - split; [done|]. intros (ms & url & [= <-] & H & _).
      apply check_entries_object in H. congruence.
    - apply check_entries_object in E.
      destruct (check_url (JObj members) (lit "base")) as [ex|[]] eqn:Eb.
      + split; [done|]. intros (ms & url & [= <-] & _ & Hu & Hb & _).
        assert (check_url (JObj members) (lit "base") = inr tt); [|congruence].
        apply check_url_object. by exists (JObj url).
      + apply check_url_object in Eb as (v & Hv & Hb').
        destruct v as [| | | | |url]; try done.
        rewrite check_url_object. split.
        * intros (v & Hv' & Hp). rewrite Hv in Hv'. injection Hv' as <-.
          by exists members, url.
        * intros (ms & url' & [= <-] & _ & Hu & _ & Hp).
          rewrite Hv in Hu. injection Hu as <-. by exists (JObj url). }
  destruct (validate_config c) as [ex|[]]; split; try done.
Qed.

(** X2: when the document is an object, the assertion that fails is the one
    of the first entry, in the order [username], [password], [url], [label],
    [port], that is missing or falsy. *)
Theorem validate_config_first_missing members checked k rest :
  CHECK = checked ++ k :: rest →
  Forall (λ k', json_truthy (member members k') = true) checked →
  json_truthy (member members k) = false →
  validate_config (JObj members) = inl (AssertionFailed (lit "config." ++ k))
  ∧ read_config (JObj members)
    = ([log_record LOG error (lit "configuration validation failed")], Exited 1).
Proof.
  intros HC Hchecked Hk.
  assert (validate_config (JObj members) = inl (AssertionFailed (lit "config." ++ k))) as H.
  { unfold validate_config. rewrite HC. clear HC.
    induction Hchecked as [|k' checked Hk' _ IH]; cbn [app check_entries get_property].
    - unfold assert_ok. by rewrite Hk.
    - unfold assert_ok at 1. rewrite Hk'.
      by destruct (check_entries (JObj members) (checked ++ k :: rest)) as [ex|[]]. }
  split; [done|]. unfold read_config. by rewrite H.
Qed.

Lemma validate_config_first_missing_witness :
  validate_config
    (JObj [(lit "username", JStr (lit "u")); (lit "password", JStr (lit "p"));
           (lit "url", JObj [(lit "base", JStr (lit "b"))]);
           (lit "label", JStr (lit "public")); (lit "port", JNum 0)])
  = inl (AssertionFailed (lit "config.port")).
Proof.
  apply (validate_config_first_missing _
           [lit "username"; lit "password"; lit "url"; lit "label"]
           (lit "port") []).
  - reflexivity.
  - by repeat constructor.
  - reflexivity.
Defined.

(** ** Start-up: the templates *)

Lemma existsb_dot_false s : 46 ∉ s → existsb (λ d, d =? 46) s = false.
Proof.
  induction s as [|c s IH]; intros H; [done|].
  apply not_elem_of_cons in H as [Hc Hs]. cbn [existsb].
  destruct (N.eqb_spec c 46); [congruence|]. by rewrite IH.
Qed.

Lemma existsb_dot_true a s : existsb (λ d, d =? 46) (a ++ 46 :: s) = true.
Proof.
  induction a as [|c a IH]; cbn [app existsb]; [done|].
  by rewrite IH, orb_true_r.
Qed.

(** X3: the name of a template is the name of its file up to the last dot: a
    name ending in a dot and an extension without dots loses both, whatever
    dots come before, and a name without a dot is kept. *)
Theorem strip_extension_last_dot name ext :
  46 ∉ ext →
  strip_extension (name ++ 46 :: ext) = name
  ∧ strip_extension ext = ext.
Proof.
  intros Hext. split.
  - induction name as [|c name IH]; cbn [app strip_extension].
    + by rewrite existsb_dot_false.
    + rewrite existsb_dot_true, IH. cbn [negb]. by rewrite andb_false_r.
  - induction ext as [|c ext IH]; [done|].
    apply not_elem_of_cons in Hext as [Hc Hext]. cbn [strip_extension].
    destruct (N.eqb_spec c 46); [congruence|]. cbn [andb]. by rewrite IH.
Qed.

Lemma strip_extension_last_dot_witness :
  strip_extension (lit "issue.index.html") = lit "issue.index"
  ∧ strip_extension (lit "html") = lit "html".
Proof.
  apply (strip_extension_last_dot (lit "issue.index") (lit "html")).
  eval_lits. intros H.
  repeat (apply elem_of_cons in H as [H|H]; [discriminate|]).
  by apply elem_of_nil in H.
Defined.

Lemma read_templates_from_readable path_join readFileSync tdir ents T logged :
  Forall (λ e, is_Some (readFileSync (path_join tdir e))) ents →
  ∃ T', read_templates_from path_join readFileSync tdir ents T logged
        = (logged ++ replicate (length ents) load_record, Some T').
Proof.
  intros H. revert T logged. unfold load_record, log_record.
  induction H as [|e ents [text He] _ IH]; intros T logged.
  - exists T. cbn. by rewrite app_nil_r.
  - cbn [read_templates_from]. rewrite He.
    destruct (IH (set_template T (strip_extension e) text)
                 (logged ++ [{| LogRecord.from := LOG; LogRecord.lvl := info;
                                LogRecord.msg := lit "load template" |}]))
      as [T' ->].
    exists T'. cbn [length replicate]. by rewrite <- app_assoc.
Qed.

(** Entries under other names leave the template of a name as it is. *)
Lemma read_templates_from_other path_join readFileSync tdir ents T logged logged' T' nam :
  Forall (λ e, strip_extension e ≠ nam) ents →
  read_templates_from path_join readFileSync tdir ents T logged = (logged', Some T') →
  T' !! nam = T !! nam.
Proof.
  intros H. revert T logged.
  induction H as [|e ents He _ IH]; intros T logged; cbn [read_templates_from].
  - by intros [= _ <-].
  - destruct (readFileSync (path_join tdir e)) as [text|]; [|done].
    intros Hr. rewrite (IH _ _ Hr). unfold set_template.
    destruct (str_eqb _ _); [done|]. by rewrite lookup_insert_ne.
Qed.

Lemma read_templates_from_app path_join readFileSync tdir l1 l2 T logged :
  read_templates_from path_join readFileSync tdir (l1 ++ l2) T logged
  = match read_templates_from path_join readFileSync tdir l1 T logged with
    | (logged', Some T') =>
        read_templates_from path_join readFileSync tdir l2 T' logged'
    | failed => failed
    end.
Proof.
  revert T logged. induction l1 as [|e l1 IH]; intros T logged; [done|].
  cbn [app read_templates_from].
  destruct (readFileSync (path_join tdir e)); [apply IH | done].
Qed.

(** X4: after [read_templates] over a directory whose files can all be read,
    [template(nam)] returns the text of the last entry whose name without
    extension is [nam] (for a name other than [__proto__]), and one record is
    logged per entry. *)
Theorem template_of_last_entry path_join readFileSync tdir before ent after text nam w :
  Forall (λ e, is_Some (readFileSync (path_join tdir e))) (before ++ ent :: after) →
  readFileSync (path_join tdir ent) = Some text →
  strip_extension ent = nam →
  nam ≠ lit "__proto__" →
  Forall (λ e, strip_extension e ≠ nam) after →
  ∃ TEMPLATES,
    read_templates path_join readFileSync tdir (before ++ ent :: after)
    = (replicate (length (before ++ ent :: after)) load_record, Some TEMPLATES)
    ∧ template TEMPLATES nam w = (w, inr text).
Proof.
  intros Hread Hent Hnam Hproto Hafter. unfold read_templates.
  destruct (read_templates_from_readable path_join readFileSync tdir _ ∅ [] Hread)
    as [T HT].
  exists T. split; [done|].
  rewrite read_templates_from_app in HT.
  apply Forall_app in Hread as [Hb _].
  destruct (read_templates_from_readable path_join readFileSync tdir _ ∅ [] Hb)
    as [Tb HTb].
  rewrite HTb in HT. cbn [read_templates_from] in HT. rewrite Hent, Hnam in HT.
  apply (read_templates_from_other _ _ _ _ _ _ _ _ nam Hafter) in HT.
  unfold template. rewrite HT. unfold set_template.
  destruct (str_eqb nam (lit "__proto__")) eqn:E; [by apply str_eqb_eq in E|].
  by rewrite lookup_insert_eq.
Qed.

Lemma template_of_last_entry_witness :
  ∃ TEMPLATES,
    read_templates (λ dir e, dir ++ lit "/" ++ e) (λ path, Some (lit "text of " ++ path))
      (lit "templates") [lit "primary.txt"; lit "issue_index.html"; lit "primary.html"]
    = (replicate 3 load_record, Some TEMPLATES)
    ∧ template TEMPLATES (lit "primary") World.init
      = (World.init, inr (lit "text of templates/primary.html")).
Proof.
  apply (template_of_last_entry (λ dir e, dir ++ lit "/" ++ e)
           (λ path, Some (lit "text of " ++ path)) (lit "templates")
           [lit "primary.txt"; lit "issue_index.html"] (lit "primary.html") []
           (lit "text of templates/primary.html") (lit "primary") World.init).
  - by repeat constructor.
  - by vm_compute.
  - by vm_compute.
  - by vm_compute.
  - constructor.
Defined.

(** X5: when no entry of the directory has the name [nam] without its
    extension, [template(nam)] throws an [AssertionError]; and when a file
    cannot be read, [read_templates] throws at that entry, having logged the
    records up to it. *)
Theorem template_missing path_join readFileSync tdir ents nam w :
  Forall (λ e, strip_extension e ≠ nam) ents →
  (∀ logged TEMPLATES,
     read_templates path_join readFileSync tdir ents = (logged, Some TEMPLATES) →
     template TEMPLATES nam w = (w, inl AssertionError))
  ∧ (∀ before ent after,
       ents = before ++ ent :: after →
       Forall (λ e, is_Some (readFileSync (path_join tdir e))) before →
       readFileSync (path_join tdir ent) = None →
       read_templates path_join readFileSync tdir ents
       = (replicate (S (length before)) load_record, None)).
Proof.
  intros Hnam. split.
  - intros logged T HT. unfold read_templates in HT.
    apply (read_templates_from_other _ _ _ _ _ _ _ _ nam Hnam) in HT.
    unfold template. by rewrite HT, lookup_empty.
  - intros before ent after -> Hb Hent. unfold read_templates.
    rewrite read_templates_from_app.
    destruct (read_templates_from_readable path_join readFileSync tdir _ ∅ [] Hb)
      as [Tb ->].
    cbn [read_templates_from]. rewrite Hent. cbn [app].
    f_equal. change (S (length before)) with (1 + length before)%nat.
    rewrite Nat.add_comm, replicate_add. done.
Qed.

Lemma template_missing_witness :
  ∃ logged TEMPLATES,
    read_templates (λ dir e, dir ++ lit "/" ++ e) (λ path, Some path)
      (lit "templates") [lit "primary.html"] = (logged, Some TEMPLATES)
    ∧ template TEMPLATES (lit "issue_index") World.init
      = (World.init, inl AssertionError).
Proof.
  destruct (template_missing (λ dir e, dir ++ lit "/" ++ e) (λ path, Some path)
              (lit "templates") [lit "primary.html"] (lit "issue_index") World.init
              ltac:(by repeat constructor)) as [H _].
  eexists _, _. split; [reflexivity|]. by eapply H.
Defined.

(** ** The issue index *)

Lemma handle_issue_index_reply CONFIG TEMPLATES JIRA req :
  run (handle_issue_index CONFIG TEMPLATES JIRA req)
  = (reply ← mret (Jira.search JIRA (search_url CONFIG));
     match truthy (Reply.err reply) with
     | Some _ =>
         write_log req_log error (lit "error communicating with JIRA");;
         res_send 500 None;; next (Some false)
     | None =>
         write_log req_log info (lit "serving issue index");;
         container ← template TEMPLATES (lit "issue_index");
         tbody ← match truthy (Reply.obj reply) with
                 | Some results =>
                     mret (index_rows (SearchResults.issues results) [])
                 | None => throw TypeError
                 end;
         out ← template TEMPLATES (lit "primary");
         let out := replace (lit "%%CONTAINER%%")
                      (replace (lit "%%TABLE_BODY%%") tbody container) out in
         res_set_contentType (lit "text/html");;
         res_set_contentLength (length out);;
         res_writeHead 200;; res_write out;; res_end;; next None
     end) (with_requested [search_url CONFIG] World.init).
Proof. reflexivity. Qed.

(** X6: when the search fails, whatever the name of the error, the index
    handler answers with status 500 and no body, after its one request to
    the search URL of the configured label. *)
Theorem handle_issue_index_upstream_error CONFIG TEMPLATES JIRA req e :
  Reply.err (Jira.search JIRA (search_url CONFIG)) = Val e →
  run (handle_issue_index CONFIG TEMPLATES JIRA req)
  = (refused 500 None [search_url CONFIG]
       [log_record req_log error (lit "error communicating with JIRA")],
     inr tt).
Proof.
  intros He. rewrite handle_issue_index_reply.
  erewrite bind_value by reflexivity. by rewrite He.
Qed.

Lemma handle_issue_index_upstream_error_witness :
  run (handle_issue_index Example.CONFIG Example.TEMPLATES
         (Sample.failing_search (lit "NotFoundError"))
         (Example.request (lit "index.html")))
  = (refused 500 None
       [lit "/rest/api/2/search?jql=labels%20%3D%20%22public%22&fields=summary"]
       [log_record req_log error (lit "error communicating with JIRA")],
     inr tt).
Proof.
  exact (handle_issue_index_upstream_error Example.CONFIG Example.TEMPLATES
           (Sample.failing_search (lit "NotFoundError"))
           (Example.request (lit "index.html"))
           {| JiraError.name := lit "NotFoundError" |} eq_refl).
Defined.

(** X7: when the search succeeds and both templates are loaded, the index
    handler answers with status 200 after one request: the body is the
    primary template around the index template around the table rows, one
    row per issue of the results, in their order. *)
Theorem handle_issue_index_serves CONFIG TEMPLATES JIRA req results index primary :
  absent (Reply.err (Jira.search JIRA (search_url CONFIG))) →
  Reply.obj (Jira.search JIRA (search_url CONFIG)) = Val results →
  TEMPLATES !! lit "issue_index" = Some index →
  TEMPLATES !! lit "primary" = Some primary →
  run (handle_issue_index CONFIG TEMPLATES JIRA req)
  = (served (replace (lit "%%CONTAINER%%")
               (replace (lit "%%TABLE_BODY%%")
                  (concat (map index_row (SearchResults.issues results))) index)
               primary)
       [search_url CONFIG]
       [log_record req_log info (lit "serving issue index")],
     inr tt).
Proof.
  intros He Ho Hi Hp. rewrite handle_issue_index_reply.
  erewrite bind_value by reflexivity.
  apply truthy_absent in He as ->. rewrite Ho. cbn [truthy].
  erewrite bind_value by reflexivity.
  erewrite bind_value by (unfold template; rewrite Hi; reflexivity).
  erewrite bind_value by reflexivity.
  erewrite bind_value by (unfold template; rewrite Hp; reflexivity).
  rewrite index_rows_spec. reflexivity.
Qed.

Lemma handle_issue_index_serves_witness :
  Response.body (World.res (fst
    (run (handle_issue_index Example.CONFIG Example.TEMPLATES
            (Example.search_JIRA Sample.two_results)
            (Example.request (lit "index.html"))))))
  = Some (lit "<html><body><table><tr><td><a href=" ++ DQ ++ lit "B-2" ++ DQ
            ++ lit ">B-2</a></td><td>two</td></tr>" ++ LF
            ++ lit "<tr><td><a href=" ++ DQ ++ lit "A-1" ++ DQ
            ++ lit ">A-1</a></td><td>one</td></tr>" ++ LF
            ++ lit "</table></body></html>").
Proof.
  rewrite (handle_issue_index_serves Example.CONFIG Example.TEMPLATES
             (Example.search_JIRA Sample.two_results)
             (Example.request (lit "index.html")) Sample.two_results
             (lit "<table>%%TABLE_BODY%%</table>")
             (lit "<html><body>%%CONTAINER%%</body></html>")
             ltac:(by right) eq_refl ltac:(by vm_compute) ltac:(by vm_compute)).
  by vm_compute.
Defined.

(** X8: when the search succeeds but a template is not loaded, or the reply
    has no document, the index handler throws after its request and its log
    record: no response is sent and [next] is not called. *)
Theorem handle_issue_index_throws CONFIG TEMPLATES JIRA req :
  absent (Reply.err (Jira.search JIRA (search_url CONFIG))) →
  let result := run (handle_issue_index CONFIG TEMPLATES JIRA req) in
  let started :=
    with_logged [log_record req_log info (lit "serving issue index")]
      (with_requested [search_url CONFIG] World.init) in
  nothing_sent started
  ∧ (TEMPLATES !! lit "issue_index" = None →
     result = (started, inl AssertionError))
  ∧ (is_Some (TEMPLATES !! lit "issue_index") →
     absent (Reply.obj (Jira.search JIRA (search_url CONFIG))) →
     result = (started, inl TypeError))
  ∧ (is_Some (TEMPLATES !! lit "issue_index") →
     (∃ results, Reply.obj (Jira.search JIRA (search_url CONFIG)) = Val results) →
     TEMPLATES !! lit "primary" = None →
     result = (started, inl AssertionError)).
Proof.
  intros He result started. subst result. rewrite handle_issue_index_reply.
  erewrite bind_value by reflexivity.
  apply truthy_absent in He as ->.
  erewrite bind_value by reflexivity.
  split; [done|]. unfold template. repeat split.
  - intros ->. reflexivity.
  - intros [index ->] Ho. erewrite bind_value by reflexivity.
    apply truthy_absent in Ho as ->. reflexivity.
  - intros [index ->] [results ->] ->.
    erewrite bind_value by reflexivity.
    erewrite bind_value by reflexivity. reflexivity.
Qed.

Lemma handle_issue_index_throws_witness :
  run (handle_issue_index Example.CONFIG ∅
         (Example.search_JIRA Example.search_results)
         (Example.request (lit "index.html")))
  = (with_logged [log_record req_log info (lit "serving issue index")]
       (with_requested
          [lit "/rest/api/2/search?jql=labels%20%3D%20%22public%22&fields=summary"]
          World.init),
     inl AssertionError).
Proof.
  destruct (handle_issue_index_throws Example.CONFIG ∅
              (Example.search_JIRA Example.search_results)
              (Example.request (lit "index.html")) ltac:(by right))
    as (_ & H & _).
  exact (H eq_refl).
Defined.

(** ** When the composer throws *)

Lemma only_logs_ret {A} (a : A) : only_logs (mret a).
Proof. done. Qed.

Lemma only_logs_throw {A} e : only_logs (@throw A e).
Proof. done. Qed.

Lemma only_logs_write_log l v m : only_logs (write_log l v m).
Proof. done. Qed.

Lemma only_logs_toISOString d : only_logs (toISOString d).
Proof. by destruct d. Qed.

Lemma only_logs_bind {A B} (m : M A) (f : A → M B) :
  only_logs m → (∀ a, only_logs (f a)) → only_logs (m ≫= f).
Proof.
  intros Hm Hf w. unfold mbind, M_bind. specialize (Hm w).
  destruct (m w) as [w' [e|a]]; cbn [fst] in *; [done|].
  destruct (Hf a w') as (-> & -> & ->). done.
Qed.

Lemma only_logs_format_comments sep encode Date_parse coms dark out :
  only_logs (format_comments sep encode Date_parse coms dark out).
Proof.
  revert dark out. induction coms as [|com coms IH]; intros dark out.
  - apply only_logs_ret.
  - cbn [format_comments].
    apply only_logs_bind; [apply only_logs_toISOString|]. intros iso_text.
    apply only_logs_bind; [|intros o; apply IH].
    destruct (truthy_string (Comment.updated com)); [|apply only_logs_ret].
    destruct (negb _); [|apply only_logs_ret].
    apply only_logs_bind; [apply only_logs_toISOString|]. intros u.
    apply only_logs_ret.
Qed.

Lemma only_logs_format_issue sep encode Date_parse issue :
  only_logs (format_issue sep encode Date_parse issue).
Proof.
  unfold format_issue.
  destruct (truthy (Issue.fields issue)) as [fields|]; [|apply only_logs_throw].
  apply only_logs_bind.
  - destruct (truthy (Fields.resolution fields)); [|apply only_logs_ret].
    apply only_logs_bind; [apply only_logs_toISOString|]. intros iso_text.
    apply only_logs_ret.
  - intros out. cbn zeta.
    destruct (truthy (Fields.comment fields)) as [c|]; [|apply only_logs_ret].
    apply only_logs_bind.
    + destruct (negb _); [apply only_logs_write_log | apply only_logs_ret].
    + intros _. apply only_logs_format_comments.
Qed.

(** The loop over the comments throws a [RangeError] at the first comment
    with an invalid date that it shows. *)
Lemma format_comments_cases sep encode Date_parse coms :
  Forall (comment_dates_valid Date_parse) coms
  ∨ (¬ Forall (comment_dates_valid Date_parse) coms
     ∧ ∀ dark out w,
         format_comments sep encode Date_parse coms dark out w
         = (w, inl RangeError)).
Proof.
  induction coms as [|com coms IH]; [by left|].
  destruct (Date_parse (Comment.created com)) as [created_at|] eqn:Ec.
  2:{ right. split.
      - intros H. apply Forall_cons_1 in H as [[[t Ht] _] _]. congruence.
      - intros dark out w. cbn [format_comments]. rewrite Ec.
        by erewrite bind_exception by reflexivity. }
  assert (comment_dates_valid Date_parse com
          ∨ (¬ comment_dates_valid Date_parse com
             ∧ ∃ u, truthy_string (Comment.updated com) = Some u
                    ∧ str_eqb u (Comment.created com) = false
                    ∧ Date_parse u = None)) as [Hcom|(Hcom & u & Hu & Hne & Hd)].
  { assert (is_Some (Date_parse (Comment.created com))) as Hcreated
      by (rewrite Ec; by eexists).
    unfold comment_dates_valid.
    destruct (Comment.updated com) as [| |[|c u]] eqn:Eu;
      try (left; split; [done|]; by intros u' [= <-]).
    destruct (str_eqb (c :: u) (Comment.created com)) eqn:Eq.
    - left. split; [done|]. intros u' [= <-] _ Hne.
      by apply str_eqb_eq in Eq.
    - destruct (Date_parse (c :: u)) as [t|] eqn:Ed.
      + left. split; [done|]. intros u' [= <-] _ _. rewrite Ed. by eexists.
      + right. split; [|by exists (c :: u)].
        intros [_ H]. destruct (H (c :: u)) as [t Ht]; [done | done | | congruence].
        intros Hcu. apply str_eqb_eq in Hcu. congruence. }
  - destruct IH as [IH|[IH Hthrow]].
    + left. by constructor.
    + right. split; [intros H; by apply Forall_cons_1 in H as [_ H]|].
      intros dark out w. cbn [format_comments]. rewrite Ec.
      erewrite bind_value by reflexivity.
      destruct (truthy_string (Comment.updated com)) as [u|] eqn:Eu.
      * destruct (negb (str_eqb u (Comment.created com))) eqn:En.
        -- destruct (Date_parse u) as [t|] eqn:Ed.
           ++ erewrite bind_value by (erewrite bind_value by reflexivity; reflexivity).
              apply Hthrow.
           ++ by erewrite bind_exception by (erewrite bind_exception by reflexivity; reflexivity).
        -- erewrite bind_value by reflexivity. apply Hthrow.
      * erewrite bind_value by reflexivity. apply Hthrow.
  - right. split; [intros H; by apply Forall_cons_1 in H as [H _]|].
    intros dark out w. cbn [format_comments]. rewrite Ec.
    erewrite bind_value by reflexivity. rewrite Hu.
    rewrite Hne. cbn [negb]. rewrite Hd.
    by erewrite bind_exception by (erewrite bind_exception by reflexivity; reflexivity).
Qed.

(** With its fields present, the composer either has valid dates to show or
    throws a [RangeError]. *)
Lemma format_issue_cases sep encode Date_parse issue fields :
  Issue.fields issue = Val fields →
  dates_valid Date_parse fields
  ∨ (¬ dates_valid Date_parse fields
     ∧ ∀ w, snd (format_issue sep encode Date_parse issue w) = inl RangeError).
Proof.
  intros Hf. unfold format_issue. rewrite Hf. cbn [truthy].
  assert ((∀ r, Fields.resolution fields = Val r →
             is_Some (new_Date Date_parse (Fields.resolutiondate fields)))
          ∨ ∃ r, Fields.resolution fields = Val r
                 ∧ new_Date Date_parse (Fields.resolutiondate fields) = None)
    as [Hres|(r & Hr & Hd)].
  { destruct (Fields.resolution fields) as [| |r]; try (by left).
    destruct (new_Date Date_parse (Fields.resolutiondate fields)) eqn:E.
    - left. intros _ _. by eexists.
    - right. by exists r. }
  2:{ right. split.
      - intros [H _]. destruct (H r Hr) as [t Ht]. congruence.
      - intros w. rewrite Hr. cbn [truthy]. rewrite Hd.
        by erewrite bind_exception
          by (erewrite bind_exception by reflexivity; reflexivity). }
  unfold dates_valid.
  destruct (Fields.comment fields) as [| |c] eqn:Ec;
    try (left; by split).
  destruct (format_comments_cases sep encode Date_parse (CommentPage.comments c))
    as [Hv|[Hv Hthrow]].
  { left. split; [done|]. by intros c' [= <-]. }
  right. split; [intros [_ H]; by apply Hv, H|].
  intros w.
  set (m := match truthy (Fields.resolution fields) with
            | Some resolution => _
            | None => _
            end).
  assert (∃ out, m w = (w, inr out)) as [out Hm].
  { subst m. destruct (Fields.resolution fields) as [| |r] eqn:Er; cbn [truthy];
      try (by eexists).
    destruct (Hres r eq_refl) as [t Ht]. rewrite Ht.
    eexists. by erewrite bind_value by reflexivity. }
  erewrite bind_value by apply Hm. cbn [truthy].
  destruct (negb (CommentPage.maxResults c =? CommentPage.total c)%Z);
    (erewrite bind_value by reflexivity); by rewrite Hthrow.
Qed.

(** X9: [format_issue] returns the page exactly when every date it shows is
    valid, and throws a [RangeError] exactly when one is not; without
    [fields] it throws a [TypeError]. Whether it returns or throws, it
    leaves the response, the upstream requests and [next] alone. *)
Theorem format_issue_errors sep encode Date_parse issue w :
  let result := format_issue sep encode Date_parse issue w in
  (absent (Issue.fields issue) → result = (w, inl TypeError))
  ∧ (∀ fields, Issue.fields issue = Val fields →
       (dates_valid Date_parse fields
        ↔ snd result = inr (issue_page sep encode Date_parse issue fields))
       ∧ (¬ dates_valid Date_parse fields ↔ snd result = inl RangeError))
  ∧ World.res (fst result) = World.res w
  ∧ World.requested (fst result) = World.requested w
  ∧ World.nexts (fst result) = World.nexts w.
Proof.
  intros result. subst result. split; [|split].
  - intros H. apply truthy_absent in H. unfold format_issue. by rewrite H.
  - intros fields Hf.
    destruct (format_issue_cases sep encode Date_parse issue fields Hf)
      as [Hv|[Hv Hthrow]].
    + rewrite (format_issue_page _ _ _ _ _ _ Hf Hv). cbn [snd].
      split; split; done.
    + rewrite Hthrow. split; split; done.
  - apply only_logs_format_issue.
Qed.

Lemma format_issue_errors_witness :
  snd (format_issue re_crlf_opt ent_encode Example.Date_parse
         (Example.issue Example.resolved_undated) World.init)
  = inl RangeError.
Proof.
  destruct (format_issue_errors re_crlf_opt ent_encode Example.Date_parse
              (Example.issue Example.resolved_undated) World.init)
    as (_ & H & _).
  apply (H Example.resolved_undated eq_refl).
  intros [Hres _]. by destruct (Hres Example.fixed eq_refl).
Defined.

(** ** How a request ends *)

(** The callback of [JIRA.get] asks JIRA nothing more; when it returns, the
    response has been ended and [next] called once, without an argument
    exactly when the status is 200; when it throws, nothing has been sent. *)
Lemma handle_issue_reply_discipline encode Date_parse CONFIG TEMPLATES reply w :
  nothing_sent w →
  let result := handle_issue_reply encode Date_parse CONFIG TEMPLATES reply w in
  World.requested (fst result) = World.requested w
  ∧ status result ≠ Some 400%Z
  ∧ match snd result with
    | inr _ => answered_once (fst result)
               ∧ (World.nexts (fst result) = [None] ↔ status result = Some 200%Z)
    | inl _ => nothing_sent (fst result)
    end.
Proof.
  intros [Hres Hnexts] result. subst result. unfold handle_issue_reply.
  assert (∀ code body msg,
    let result := (write_log req_log error msg;; res_send code body;;
                   next (Some false)) w in
    code ≠ 200%Z → code ≠ 400%Z →
    World.requested (fst result) = World.requested w
    ∧ status result ≠ Some 400%Z
    ∧ match snd result with
      | inr _ => answered_once (fst result)
                 ∧ (World.nexts (fst result) = [None] ↔ status result = Some 200%Z)
      | inl _ => nothing_sent (fst result)
      end) as Hrefuse.
  { intros code body msg result Hcode Hcode'. subst result.
    unfold mbind, M_bind, answered_once, status. cbn. rewrite Hnexts. cbn.
    repeat split; try done; by intros [= ?]. }
  destruct (truthy (Reply.err reply)) as [e|].
  { destruct (str_eqb _ _); by apply Hrefuse. }
  destruct (expected_format _) as [[issue labels]|]; [|by apply Hrefuse].
  destruct (_ =? _)%Z; [by apply Hrefuse|].
  set (w1 := with_logged [log_record req_log info (lit "serving issue")] w).
  rewrite (bind_value _ _ w w1 tt) by reflexivity.
  unfold template. destruct (TEMPLATES !! lit "primary") as [tpl|].
  2:{ erewrite bind_exception by reflexivity. unfold status. cbn [fst snd].
      repeat split; try done. cbn. by rewrite Hres. }
  erewrite bind_value by reflexivity.
  destruct (only_logs_format_issue re_crlf_opt encode Date_parse issue w1)
    as (Hr & Hq & Hn).
  destruct (format_issue _ _ _ _ w1) as [w2 [ex|page]] eqn:Ef;
    cbn [fst] in Hr, Hq, Hn.
  - erewrite bind_exception by apply Ef. unfold status, nothing_sent.
    cbn [fst snd]. split; [done|]. rewrite Hr, Hn. cbn. rewrite Hres.
    by repeat split.
  - erewrite bind_value by apply Ef.
    unfold mbind, M_bind, answered_once, status. cbn. rewrite Hn. cbn.
    rewrite Hnexts. by repeat split.
Qed.


Lemma IssueKey_key_chars key :
  IssueKey key → Forall (λ c, is_key_char c = true) key.
Proof.
  intros (letters & digits & -> & _ & _ & Hl & Hd).
  apply Forall_app. split; [|constructor].
  - eapply Forall_impl; [apply Hl|]. intros c Hc. unfold is_key_char. by rewrite Hc.
  - unfold is_key_char. by rewrite orb_true_r.
  - eapply Forall_impl; [apply Hd|]. intros c Hc. unfold is_key_char.
    by rewrite Hc, orb_true_r.
Qed.

(** X11: the single-issue handler asks JIRA at most one thing per request,
    and only about a key that matches the pattern: the one URL requested is
    the configured path, [/issue/] and a key made of capital letters, digits
    and hyphens only. A request that is answered with status 400 asks
    nothing. *)
Theorem handle_issue_requests encode Date_parse CONFIG TEMPLATES JIRA req :
  let result := run (handle_issue encode Date_parse CONFIG TEMPLATES JIRA req) in
  (World.requested (fst result) = [] ∧ status result = Some 400%Z)
  ∨ (∃ key, Request.params_key req = Val key
            ∧ IssueKey key
            ∧ Forall (λ c, is_key_char c = true) key
            ∧ World.requested (fst result)
              = [Url.path (Config.url CONFIG) ++ lit "/issue/" ++ key]
            ∧ status result ≠ Some 400%Z).
Proof.
  intros result. subst result.
  destruct (Request.params_key req) as [| |[|c k]] eqn:Ek;
    try (left; unfold run, handle_issue; rewrite Ek; by cbv).
  destruct (re_issue_key (c :: k)) eqn:Er.
  - right. apply re_issue_key_spec in Er. exists (c :: k).
    split; [done|]. split; [done|]. split; [by apply IssueKey_key_chars|].
    rewrite (handle_issue_valid_key _ _ _ _ _ _ (c :: k) Ek Er).
    destruct (handle_issue_reply_discipline encode Date_parse CONFIG TEMPLATES
                (Jira.issue JIRA (issue_url CONFIG (c :: k)))
                (with_requested [issue_url CONFIG (c :: k)] World.init))
      as (Hq & Hs & _); [done|].
    split; [by rewrite Hq | done].
  - left. unfold run, handle_issue. rewrite Ek. cbn [truthy_string]. rewrite Er.
    by cbv.
Qed.

(** ** A public issue that cannot be served *)

Lemma handle_issue_public encode Date_parse CONFIG TEMPLATES JIRA req key issue fields :
  public_request JIRA CONFIG req key issue fields →
  run (handle_issue encode Date_parse CONFIG TEMPLATES JIRA req)
  = (out ← template TEMPLATES (lit "primary");
     page ← format_issue re_crlf_opt encode Date_parse issue;
     let out := replace (lit "%%CONTAINER%%") page out in
     res_set_contentType (lit "text/html");;
     res_set_contentLength (length out);;
     res_writeHead 200;; res_write out;; res_end;; next None)
      (serving CONFIG key).
Proof.
  intros (Hk & Hkey & [He Ho] & Hf & labels & Hl & Hpub).
  rewrite (handle_issue_valid_key _ _ _ _ _ _ key Hk Hkey).
  unfold handle_issue_reply. apply truthy_absent in He as ->.
  unfold expected_format. rewrite Ho. cbn [truthy]. rewrite Hf. cbn [truthy].
  rewrite Hl. cbn [truthy].
  apply indexOf_found in Hpub as ->.
  by erewrite bind_value by reflexivity.
Qed.

(** X12: a request for a public issue throws, with nothing sent and [next]
    not called, when the primary template is not loaded (an
    [AssertionError], raised before the page is composed, whatever the issue
    holds) and when the template is loaded but a date that the page shows is
    invalid (a [RangeError]). In both cases JIRA has been asked once. *)
Theorem handle_issue_throws encode Date_parse CONFIG TEMPLATES JIRA req key issue fields :
  public_request JIRA CONFIG req key issue fields →
  let result := run (handle_issue encode Date_parse CONFIG TEMPLATES JIRA req) in
  nothing_sent (serving CONFIG key)
  ∧ (TEMPLATES !! lit "primary" = None →
     result = (serving CONFIG key, inl AssertionError))
  ∧ (is_Some (TEMPLATES !! lit "primary") → ¬ dates_valid Date_parse fields →
     snd result = inl RangeError
     ∧ nothing_sent (fst result)
     ∧ World.requested (fst result) = [issue_url CONFIG key]).
Proof.
  intros Hreq result. subst result.
  rewrite (handle_issue_public _ _ _ _ _ _ _ _ _ Hreq).
  destruct Hreq as (_ & _ & _ & Hf & _).
  split; [done|]. unfold template. split.
  - intros ->. reflexivity.
  - intros [primary ->] Hv. erewrite bind_value by reflexivity.
    destruct (format_issue_cases re_crlf_opt encode Date_parse issue fields Hf)
      as [|[_ Hthrow]]; [done|].
    specialize (Hthrow (serving CONFIG key)).
    destruct (only_logs_format_issue re_crlf_opt encode Date_parse issue
                (serving CONFIG key)) as (Hr & Hq & Hn).
    destruct (format_issue _ _ _ _ (serving CONFIG key)) as [w [ex|page]] eqn:Ef;
      cbn [fst snd] in *; [|done].
    injection Hthrow as ->.
    erewrite bind_exception by apply Ef. cbn [fst snd]. unfold nothing_sent.
    by rewrite Hr, Hq, Hn.
Qed.

Lemma handle_issue_throws_witness :
  snd (run (handle_issue ent_encode Example.Date_parse Example.CONFIG
              Example.TEMPLATES
              (Example.JIRA (Example.found (Example.issue Example.resolved_undated)))
              (Example.request (lit "ABC-1"))))
  = inl RangeError.
Proof.
  destruct (handle_issue_throws ent_encode Example.Date_parse Example.CONFIG
              Example.TEMPLATES
              (Example.JIRA (Example.found (Example.issue Example.resolved_undated)))
              (Example.request (lit "ABC-1")) (lit "ABC-1")
              (Example.issue Example.resolved_undated) Example.resolved_undated)
    as (_ & _ & H).
  - split; [done|]. split; [by apply re_issue_key_spec|].
    split; [split; [by right | done]|]. split; [done|].
    exists [lit "public"]. split; [done|]. by apply indexOf_found.
  - apply H.
    + exists (lit "<html><body>%%CONTAINER%%</body></html>"). by vm_compute.
    + intros [Hres _]. by destruct (Hres Example.fixed eq_refl).
Defined.

(** ** The page in the primary template *)

Ltac decide_closed := apply (bool_decide_unpack _); by vm_compute.

Lemma marker_head : lit "%%CONTAINER%%" = 37 :: lit "%CONTAINER%%".
Proof. by vm_compute. Qed.

Lemma get_substitution_app matched before after a r :
  36 ∉ a →
  get_substitution matched before after (a ++ r)
  = a ++ get_substitution matched before after r.
Proof.
  induction a as [|c a IH]; intros H; [done|].
  apply not_elem_of_cons in H as [Hc Ha]. cbn [app get_substitution].
  destruct (N.eqb_spec c 36); [done|]. by rewrite IH.
Qed.

(** The body served for a public issue whose page is composed, when the
    primary template holds the marker once. *)
Lemma handle_issue_body encode Date_parse CONFIG TEMPLATES JIRA req key issue fields
    pre post :
  public_request JIRA CONFIG req key issue fields →
  dates_valid Date_parse fields →
  TEMPLATES !! lit "primary" = Some (pre ++ lit "%%CONTAINER%%" ++ post) →
  37 ∉ pre → 37 ∉ post →
  Response.body (World.res (fst
    (run (handle_issue encode Date_parse CONFIG TEMPLATES JIRA req))))
  = Some (pre ++ get_substitution (lit "%%CONTAINER%%") pre post
                   (issue_page re_crlf_opt encode Date_parse issue fields)
              ++ post).
Proof.
  intros (Hk & Hkey & Hfetched & Hf & labels & Hl & Hpub) Hv Htpl Hpre Hpost.
  rewrite (handle_issue_serves _ _ _ _ _ _ _ _ _ _ _
             Hk Hkey Hfetched Hf Hl Hpub Htpl Hv).
  cbn [fst served World.res Response.body]. f_equal.
  rewrite marker_head. by apply replace_marker.
Qed.

(** X13: when the primary template is some text, the marker [%%CONTAINER%%]
    and some more text, the marker's first character in neither, the body
    served for a public issue is the template with the composed page in the
    marker's place, the page as it is provided it has no dollar sign. *)
Theorem handle_issue_page_verbatim encode Date_parse CONFIG TEMPLATES JIRA req key
    issue fields pre post :
  public_request JIRA CONFIG req key issue fields →
  dates_valid Date_parse fields →
  TEMPLATES !! lit "primary" = Some (pre ++ lit "%%CONTAINER%%" ++ post) →
  37 ∉ pre → 37 ∉ post →
  36 ∉ issue_page re_crlf_opt encode Date_parse issue fields →
  Response.body (World.res (fst
    (run (handle_issue encode Date_parse CONFIG TEMPLATES JIRA req))))
  = Some (pre ++ issue_page re_crlf_opt encode Date_parse issue fields ++ post).
Proof.
  intros Hreq Hv Htpl Hpre Hpost Hpage.
  rewrite (handle_issue_body _ _ _ _ _ _ _ _ _ _ _ Hreq Hv Htpl Hpre Hpost).
  by rewrite get_substitution_plain.
Qed.

Lemma example_public_request fields :
  Fields.labels fields = Val [lit "public"] →
  public_request (Example.JIRA (Example.found (Example.issue fields)))
    Example.CONFIG (Example.request (lit "ABC-1")) (lit "ABC-1")
    (Example.issue fields) fields.
Proof.
  intros Hl. split; [done|]. split; [by apply re_issue_key_spec|].
  split; [split; [by right | done]|]. split; [done|].
  exists [lit "public"]. split; [done|]. by apply indexOf_found.
Qed.

Lemma handle_issue_page_verbatim_witness :
  Response.body (World.res (fst
    (run (handle_issue ent_encode Example.Date_parse Example.CONFIG Example.TEMPLATES
            (Example.JIRA (Example.found (Example.issue Example.full_fields)))
            (Example.request (lit "ABC-1"))))))
  = Some (lit "<html><body>"
            ++ issue_page re_crlf_opt ent_encode Example.Date_parse
                 (Example.issue Example.full_fields) Example.full_fields
            ++ lit "</body></html>").
Proof.
  apply (handle_issue_page_verbatim ent_encode Example.Date_parse Example.CONFIG
           Example.TEMPLATES _ _ (lit "ABC-1") _ Example.full_fields
           (lit "<html><body>") (lit "</body></html>")).
  - by apply example_public_request.
  - apply example_dates_valid.
  - by vm_compute.
  - decide_closed.
  - decide_closed.
  - decide_closed.
Defined.

(** X14: a dollar pattern in the composed page is expanded when the page is
    put into the template: where the page has [$$] the body has one dollar
    sign, where it has [$&] the body has the marker, where it has a dollar
    sign and a backquote the body has the head of the template once more,
    and where it has a dollar sign and an apostrophe the tail of the
    template. *)
Theorem handle_issue_page_dollar encode Date_parse CONFIG TEMPLATES JIRA req key
    issue fields pre post a b :
  public_request JIRA CONFIG req key issue fields →
  dates_valid Date_parse fields →
  TEMPLATES !! lit "primary" = Some (pre ++ lit "%%CONTAINER%%" ++ post) →
  37 ∉ pre → 37 ∉ post →
  36 ∉ a → 36 ∉ b →
  let page := issue_page re_crlf_opt encode Date_parse issue fields in
  let body :=
    Response.body (World.res (fst
      (run (handle_issue encode Date_parse CONFIG TEMPLATES JIRA req)))) in
  (page = a ++ lit "$$" ++ b → body = Some (pre ++ (a ++ lit "$" ++ b) ++ post))
  ∧ (page = a ++ lit "$&" ++ b →
     body = Some (pre ++ (a ++ lit "%%CONTAINER%%" ++ b) ++ post))
  ∧ (page = a ++ lit "$`" ++ b → body = Some (pre ++ (a ++ pre ++ b) ++ post))
  ∧ (page = a ++ lit "$'" ++ b → body = Some (pre ++ (a ++ post ++ b) ++ post)).
Proof.
  intros Hreq Hv Htpl Hpre Hpost Ha Hb page body. subst page body.
  rewrite (handle_issue_body _ _ _ _ _ _ _ _ _ _ _ Hreq Hv Htpl Hpre Hpost).
  repeat split; intros ->; rewrite (get_substitution_app _ _ _ a) by done;
    do 3 f_equal.
  - change (lit "$$") with [36; 36]. cbn [app get_substitution].
    rewrite N.eqb_refl. by rewrite get_substitution_plain.
  - change (lit "$&") with [36; 38]. cbn [app get_substitution].
    rewrite N.eqb_refl. change (38 =? 36) with false. cbv iota.
    rewrite N.eqb_refl. by rewrite get_substitution_plain.
  - change (lit "$`") with [36; 96]. cbn [app get_substitution].
    rewrite N.eqb_refl. change (96 =? 36) with false.
    change (96 =? 38) with false. cbv iota.
    rewrite N.eqb_refl. by rewrite get_substitution_plain.
  - change (lit "$'") with [36; 39]. cbn [app get_substitution].
    rewrite N.eqb_refl. change (39 =? 36) with false.
    change (39 =? 38) with false. change (39 =? 96) with false. cbv iota.
    rewrite N.eqb_refl. by rewrite get_substitution_plain.
Qed.

Lemma handle_issue_page_dollar_witness :
  Response.body (World.res (fst
    (run (handle_issue ent_encode Example.Date_parse Example.CONFIG Example.TEMPLATES
            (Example.JIRA (Example.found
               (Example.issue (Example.bare_fields (lit "costs $$5")))))
            (Example.request (lit "ABC-1"))))))
  = Some (lit "<html><body><h1>ABC-1: costs $5</h1>" ++ LF
            ++ lit "</body></html>").
Proof.
  destruct (handle_issue_page_dollar ent_encode Example.Date_parse Example.CONFIG
              Example.TEMPLATES
              (Example.JIRA (Example.found
                 (Example.issue (Example.bare_fields (lit "costs $$5")))))
              (Example.request (lit "ABC-1")) (lit "ABC-1")
              (Example.issue (Example.bare_fields (lit "costs $$5")))
              (Example.bare_fields (lit "costs $$5"))
              (lit "<html><body>") (lit "</body></html>")
              (lit "<h1>ABC-1: costs ") (lit "5</h1>" ++ LF))
    as (H & _).
  - by apply example_public_request.
  - split; [by intros r [=] | by intros c [=]].
  - by vm_compute.
  - decide_closed.
  - decide_closed.
  - decide_closed.
  - decide_closed.
  - rewrite H; by vm_compute.
Defined.

(** ** The content length and the bytes written *)

Lemma utf8_code_point_length cp :
  length (utf8_code_point cp)
  = if cp <? 0x80 then 1%nat
    else if cp <? 0x800 then 2%nat
    else if cp <? 0x10000 then 3%nat else 4%nat.
Proof. unfold utf8_code_point. by repeat case_match. Qed.

Lemma replacement_length : length (utf8_code_point 0xFFFD) = 3%nat.
Proof. by vm_compute. Qed.

(** A string has at least as many bytes as code units, and as many only when
    it is ASCII. *)
Lemma byte_length_lower n s :
  (length s ≤ n)%nat →
  (length s ≤ byte_length s)%nat
  ∧ (byte_length s = length s → Forall (λ c, c < 128) s).
Proof.
  unfold byte_length. revert s.
  induction n as [|n IH]; intros [|c rest] Hn; cbn [length] in Hn;
    try lia; try (split; [done | by constructor]).
  cbn [utf8_encode].
  destruct (is_high_surrogate c) eqn:Ehigh; [destruct rest as [|d rest']|].
  - rewrite replacement_length. cbn [length]. split; [lia | by intros [=]].
  - destruct (IH rest') as [H1 _]; [cbn [length] in Hn; lia|].
    destruct (IH (d :: rest')) as [H2 _]; [lia|]. cbn [length] in *.
    destruct (is_low_surrogate d); rewrite length_app.
    + rewrite utf8_code_point_length.
      destruct (N.ltb_spec (65536 + N.shiftl (c - 55296) 10 + (d - 56320)) 128);
        [lia|].
      destruct (N.ltb_spec (65536 + N.shiftl (c - 55296) 10 + (d - 56320)) 2048);
        [lia|].
      destruct (N.ltb_spec (65536 + N.shiftl (c - 55296) 10 + (d - 56320)) 65536);
        split; lia.
    + rewrite replacement_length. split; lia.
  - destruct (IH rest) as [H1 H2]; [lia|].
    destruct (is_low_surrogate c) eqn:Elow; rewrite length_app.
    + rewrite replacement_length. cbn [length]. split; lia.
    + rewrite utf8_code_point_length. cbn [length]. destruct (N.ltb_spec c 128).
      * split; [lia|]. intros E. constructor; [done|]. apply H2. lia.
      * repeat case_match; split; lia.
Qed.

(** X15: whenever one of the two handlers of the templated revision answers
    with status 200, the content type is [text/html] and the content length
    is the number of UTF-16 code units of the body written; that number never
    exceeds the number of bytes written, and is equal to it exactly when the
    body is ASCII. *)
Theorem content_length_code_units encode Date_parse CONFIG TEMPLATES JIRA req result :
  result = run (handle_issue encode Date_parse CONFIG TEMPLATES JIRA req)
  ∨ result = run (handle_issue_index CONFIG TEMPLATES JIRA req) →
  status result = Some 200%Z →
  ∃ out,
    Response.body (World.res (fst result)) = Some out
    ∧ Response.contentType (World.res (fst result)) = Some (lit "text/html")
    ∧ Response.contentLength (World.res (fst result)) = Some (length out)
    ∧ (length out ≤ byte_length out)%nat
    ∧ (byte_length out = length out ↔ Forall (λ c, c < 128) out).
Proof.
  intros Hresult Hs.
  assert (∃ out, World.res (fst result) = page_response out) as [out ->].
  { destruct Hresult as [-> | ->].
    - by apply handle_issue_page_response.
    - by apply handle_issue_index_page_response. }
  exists out. repeat split; try done.
  - by apply (byte_length_lower (length out)).
  - by apply (byte_length_lower (length out)).
  - apply byte_length_ascii.
Qed.

Lemma content_length_code_units_witness :
  ∃ out,
    Response.body (World.res (fst
      (run (handle_issue_index Example.CONFIG Example.TEMPLATES
              (Example.search_JIRA Sample.two_results)
              (Example.request (lit "index.html"))))))
    = Some out
    ∧ (length out ≤ byte_length out)%nat.
Proof.
  destruct (content_length_code_units ent_encode Example.Date_parse Example.CONFIG
              Example.TEMPLATES (Example.search_JIRA Sample.two_results)
              (Example.request (lit "index.html")) _ (or_intror eq_refl))
    as (out & Hb & _ & _ & Hle & _).
  - by vm_compute.
  - by exists out.
Defined.

(** ** The renderer, line by line *)

(** X16: at every point of the loop of [format_markup] the tags of the
    output so far are nested: when the encoder escapes the lines, the output
    after [k] lines has one tag per fence line among them, and as many
    closing as opening tags, but for the one opening tag of a block that is
    still open. After the last line this is the whole output. *)
Theorem format_markup_tags_nested (encode : jsstring → jsstring) desc k :
  escapes encode (split re_crlf_opt desc) →
  let lines := split re_crlf_opt desc in
  let out := format_markup_lines encode (take k lines) false [] in
  let opened := count_occ_of (lit "<pre") out in
  let closed := count_occ_of (lit "</pre>") out in
  (opened + closed = fences (take k lines))%nat
  ∧ opened = (closed + Nat.b2n (in_block_after (take k lines)))%nat
  ∧ ((length lines ≤ k)%nat → out = format_markup re_crlf_opt encode desc).
Proof.
  intros Hesc lines out opened closed. subst opened closed out.
  rewrite format_markup_lines_chunks. cbn [app].
  destruct (count_pre_tags encode (take k lines) false) as [E1 E2].
  { by apply Forall_take. }
  cbn zeta in E1, E2. cbn [Nat.b2n xorb] in E2.
  split; [done|]. split; [lia|].
  intros Hk. rewrite take_ge by done. by rewrite format_markup_chunks.
Qed.

Lemma format_markup_tags_nested_witness :
  let desc := lit "{code}" ++ LF ++ lit "x" ++ LF ++ lit "{code}" ++ LF
                ++ lit "{noformat}" in
  count_occ_of (lit "<pre") (format_markup re_crlf_opt ent_encode desc) = 2%nat
  ∧ count_occ_of (lit "</pre>") (format_markup re_crlf_opt ent_encode desc) = 1%nat.
Proof.
  intros desc.
  destruct (format_markup_tags_nested ent_encode desc 4
              ltac:(by repeat constructor)) as (H1 & H2 & H3).
  rewrite <- H3 by (vm_compute; lia).
  change (fences _) with 3%nat in H1.
  change (Nat.b2n _) with 1%nat in H2. lia.
Defined.

Lemma split_from_nonempty sep skip s : split_from sep skip s ≠ [].
Proof.
  revert skip. induction s as [|c s IH]; intros skip; [done|].
  cbn [split_from]. destruct skip; [|apply IH].
  destruct (sep (c :: s)); [|done].
  specialize (IH 0%nat). by destruct (split_from sep 0 s).
Qed.

Lemma cons_head_app c l rest :
  l ≠ [] → cons_head c (l ++ rest) = cons_head c l ++ rest.
Proof. by destruct l. Qed.

(** Splitting a string that continues with a separator: the lines of the
    string, then the lines of what follows the separator. *)
Lemma split_from_app sep a X rest skip :
  (∀ c a', (c :: a') `suffix_of` a → sep (c :: a' ++ X) = sep (c :: a')) →
  (∀ s, (sep s ≤ length s)%nat) →
  split_from sep 0 X = [] :: rest →
  (skip ≤ length a)%nat →
  split_from sep skip (a ++ X) = split_from sep skip a ++ rest.
Proof.
  intros Hsep Hlen HX. revert skip.
  induction a as [|c a IH]; intros skip Hskip.
  - cbn [length] in Hskip. assert (skip = 0%nat) as -> by lia.
    cbn [app]. by rewrite HX.
  - assert (∀ k, (k ≤ length a)%nat →
              split_from sep k (a ++ X) = split_from sep k a ++ rest) as IH'.
    { apply IH. intros c' a' Hs. apply Hsep. by apply suffix_cons_r. }
    cbn [app split_from length] in *. destruct skip as [|k]; [|apply IH'; lia].
    change (c :: a ++ X) with ((c :: a) ++ X).
    cbn [app]. rewrite (Hsep c a) by done.
    pose proof (Hlen (c :: a)) as Hl. cbn [length] in Hl.
    destruct (sep (c :: a)) as [|k].
    + rewrite IH' by lia. apply cons_head_app, split_from_nonempty.
    + rewrite IH' by lia. done.
Qed.

Lemma re_crlf_opt_length s : (re_crlf_opt s ≤ length s)%nat.
Proof.
  unfold re_crlf_opt, CR, LF. destruct s as [|x [|y s]]; cbn; chars.
Qed.

Lemma re_crlf_length s : (re_crlf s ≤ length s)%nat.
Proof.
  unfold re_crlf, CR, LF. destruct s as [|x [|y s]]; cbn; chars.
Qed.

Lemma split_join_crlf_opt a b :
  split re_crlf_opt (a ++ CR ++ LF ++ b)
  = split re_crlf_opt a ++ split re_crlf_opt b.
Proof.
  apply split_from_app; [|apply re_crlf_opt_length|done|lia].
  intros c [|d a'] _; [|done].
  unfold re_crlf_opt, CR, LF. cbn. chars.
Qed.

Lemma split_join_crlf a b :
  split re_crlf (a ++ CR ++ LF ++ b) = split re_crlf a ++ split re_crlf b.
Proof.
  apply split_from_app; [|apply re_crlf_length|done|lia].
  intros c [|d a'] _; [|done].
  unfold re_crlf, CR, LF. cbn. chars.
Qed.

Lemma split_join_lf a b :
  last a ≠ Some 13 →
  split re_crlf_opt (a ++ LF ++ b)
  = split re_crlf_opt a ++ split re_crlf_opt b.
Proof.
  intros Hlast. apply split_from_app; [|apply re_crlf_opt_length|done|lia].
  intros c [|d a'] Hs; [|done].
  destruct Hs as [p ->]. rewrite last_snoc in Hlast.
  unfold re_crlf_opt, CR, LF. cbn. chars. congruence.
Qed.

(** X17: the renderer works line by line, with the one bit of state that
    says whether a block is open. The rendering of a text, a line end and
    more text is the rendering of the text followed by that of the rest, the
    rest rendered inside a block if the text leaves one open; when it leaves
    none open, it is the two renderings one after the other. This holds for
    a CR LF pair in the three revisions, and for a bare LF (after anything
    but a CR) where lines end at a bare LF. *)
Theorem format_markup_joined (encode : jsstring → jsstring) a b :
  let rest_of sep :=
    concat (markup_chunks encode (split sep b) (in_block_after (split sep a))) in
  format_markup re_crlf_opt encode (a ++ CR ++ LF ++ b)
  = format_markup re_crlf_opt encode a ++ rest_of re_crlf_opt
  ∧ format_markup re_crlf encode (a ++ CR ++ LF ++ b)
    = format_markup re_crlf encode a ++ rest_of re_crlf
  ∧ (last a ≠ Some 13 →
     format_markup re_crlf_opt encode (a ++ LF ++ b)
     = format_markup re_crlf_opt encode a ++ rest_of re_crlf_opt)
  ∧ (∀ sep, in_block_after (split sep a) = false →
       rest_of sep = format_markup sep encode b).
Proof.
  intros rest_of. subst rest_of. cbv beta.
  rewrite !format_markup_chunks.
  split; [|split; [|split]].
  - by rewrite split_join_crlf_opt, markup_chunks_app, concat_app.
  - by rewrite split_join_crlf, markup_chunks_app, concat_app.
  - intros Hlast. by rewrite split_join_lf, markup_chunks_app, concat_app.
  - intros sep ->. by rewrite format_markup_chunks.
Qed.

Lemma format_markup_joined_witness :
  format_markup re_crlf_opt ent_encode (lit "a<b" ++ LF ++ lit "{code}")
  = format_markup re_crlf_opt ent_encode (lit "a<b")
      ++ format_markup re_crlf_opt ent_encode (lit "{code}").
Proof.
  destruct (format_markup_joined ent_encode (lit "a<b") (lit "{code}"))
    as (_ & _ & H & H').
  rewrite H by (by vm_compute). by rewrite (H' re_crlf_opt eq_refl).
Defined.

Lemma split_re_crlf_no_cr a : 13 ∉ a → split re_crlf a = [a].
Proof.
  unfold split. induction a as [|x a IH]; intros Ha; [reflexivity|].
  apply not_elem_of_cons in Ha as [Hx Ha]. cbn [split_from].
  assert (re_crlf (x :: a) = 0%nat) as ->.
  { unfold re_crlf, CR. cbn. destruct (N.eqb_spec 13 x); [congruence | done]. }
  by rewrite IH.
Qed.

(** X18: in the oldest revision a text without a CR is one line, whatever
    bare LFs it has: it is emitted as it is, followed by one [<br>] and a
    newline, or, if it starts like a fence, replaced as a whole by the
    opening tag of a block. *)
Theorem legacy_format_markup_one_line desc :
  13 ∉ desc →
  Legacy.format_markup desc
  = if is_fence desc then pre_open else desc ++ lit "<br>" ++ LF.
Proof.
  intros H. unfold Legacy.format_markup, format_markup.
  rewrite split_re_crlf_no_cr by done. cbn [format_markup_lines app].
  by destruct (is_fence desc).
Qed.

Lemma legacy_format_markup_one_line_witness :
  Legacy.format_markup (lit "{code}" ++ LF ++ lit "x" ++ LF ++ lit "{code}")
  = pre_open.
Proof.
  apply (legacy_format_markup_one_line
           (lit "{code}" ++ LF ++ lit "x" ++ LF ++ lit "{code}")).
  decide_closed.
Defined.

(** X19: the two revisions without an encoder carry every line that is not
    a fence line into the output as it is, markup included. *)
Theorem format_markup_raw_lines desc line :
  is_fence line = false →
  (line ∈ split re_crlf_opt desc → contains line (Inline.format_markup desc))
  ∧ (line ∈ split re_crlf desc → contains line (Legacy.format_markup desc)).
Proof.
  intros Hf.
  assert (∀ sep, line ∈ split sep desc →
            contains line (format_markup sep (λ l, l) desc)) as H; [|by split; apply H].
  intros sep Hin. rewrite format_markup_chunks.
  apply list_elem_of_split in Hin as (l1 & l2 & ->).
  rewrite markup_chunks_app, concat_app. cbn [markup_chunks]. rewrite Hf.
  cbn [concat]. apply contains_app_r, contains_app_l, contains_app_l.
  apply contains_refl.
Qed.

Lemma format_markup_raw_lines_witness :
  contains (lit "<script>alert(1)</script>")
    (Inline.format_markup (lit "a" ++ LF ++ lit "<script>alert(1)</script>")).
Proof.
  destruct (format_markup_raw_lines
              (lit "a" ++ LF ++ lit "<script>alert(1)</script>")
              (lit "<script>alert(1)</script>") eq_refl) as [H _].
  apply H. decide_closed.
Defined.

(** ** The other revisions *)

Lemma inline_handle_issue_valid_key Date_parse CONFIG JIRA req key :
  Request.params_key req = Val key → IssueKey key →
  run (Inline.handle_issue Date_parse CONFIG JIRA req)
  = Inline.handle_issue_reply Date_parse CONFIG
      (Jira.issue JIRA (issue_url CONFIG key))
      (with_requested [issue_url CONFIG key] World.init).
Proof.
  intros Hk Hkey. unfold run, Inline.handle_issue.
  rewrite Hk, (IssueKey_truthy key Hkey).
  apply re_issue_key_spec in Hkey as ->. reflexivity.
Qed.

Lemma legacy_handle_issue_valid_key Date_parse CONFIG JIRA req key :
  Request.params_key req = Val key → IssueKey key →
  run (Legacy.handle_issue Date_parse CONFIG JIRA req)
  = Legacy.handle_issue_reply Date_parse
      (Jira.issue JIRA (issue_url CONFIG key))
      (with_requested [issue_url CONFIG key] World.init).
Proof.
  intros Hk Hkey. unfold run, Legacy.handle_issue.
  rewrite Hk, (IssueKey_truthy key Hkey).
  apply re_issue_key_spec in Hkey as ->. reflexivity.
Qed.

(** X20: in [jirapub.js] the page of a public issue with valid dates is
    served between [<html><body>] and [</body></html>] as it is composed,
    with the lines of description and comments not encoded; nothing in the
    page is expanded, there being no template. *)
Theorem inline_handle_issue_serves Date_parse CONFIG JIRA req key issue fields :
  public_request JIRA CONFIG req key issue fields →
  dates_valid Date_parse fields →
  run (Inline.handle_issue Date_parse CONFIG JIRA req)
  = (served (lit "<html><body>"
               ++ issue_page re_crlf_opt (λ line, line) Date_parse issue fields
               ++ lit "</body></html>")
       [issue_url CONFIG key]
       (log_record req_log info (lit "serving issue")
          :: if comment_count_mismatch fields then [mismatch_record] else []),
     inr tt).
Proof.
  intros (Hk & Hkey & [He Ho] & Hf & labels & Hl & Hpub) Hv.
  rewrite (inline_handle_issue_valid_key _ _ _ _ key Hk Hkey).
  unfold Inline.handle_issue_reply. apply truthy_absent in He as ->.
  unfold expected_format. rewrite Ho. cbn [truthy]. rewrite Hf. cbn [truthy].
  rewrite Hl. cbn [truthy].
  apply indexOf_found in Hpub as ->.
  erewrite bind_value by reflexivity.
  erewrite bind_value by (by apply format_issue_page).
  by destruct (comment_count_mismatch fields).
Qed.

Lemma inline_handle_issue_serves_witness :
  Response.body (World.res (fst
    (run (Inline.handle_issue Example.Date_parse Example.CONFIG
            (Example.JIRA (Example.found
               (Example.issue (Example.bare_fields (lit "costs $$5 <b>")))))
            (Example.request (lit "ABC-1"))))))
  = Some (lit "<html><body><h1>ABC-1: costs $$5 <b></h1>" ++ LF
            ++ lit "</body></html>").
Proof.
  rewrite (inline_handle_issue_serves Example.Date_parse Example.CONFIG _ _
             (lit "ABC-1")
             (Example.issue (Example.bare_fields (lit "costs $$5 <b>")))
             (Example.bare_fields (lit "costs $$5 <b>"))).
  - by vm_compute.
  - by apply example_public_request.
  - split; [by intros r [=] | by intros c [=]].
Defined.

(** X21: the oldest revision asks for the label [public], whatever label is
    configured: an issue without it is refused with status 403 (and nothing
    logged), and an issue with it and with valid dates is served, its page
    between [<html><body>] and [</body></html>]. *)
Theorem legacy_handle_issue_label Date_parse CONFIG JIRA req key issue fields labels :
  Request.params_key req = Val key →
  IssueKey key →
  fetched JIRA CONFIG key issue →
  Issue.fields issue = Val fields →
  Fields.labels fields = Val labels →
  let result := run (Legacy.handle_issue Date_parse CONFIG JIRA req) in
  (lit "public" ∉ labels →
   result = (refused 403 (Some (lit "Sorry, this issue is not public." ++ LF))
               [issue_url CONFIG key] [],
             inr tt))
  ∧ (lit "public" ∈ labels → dates_valid Date_parse fields →
     result = (served (lit "<html><body>"
                         ++ issue_page re_crlf (λ line, line) Date_parse issue fields
                         ++ lit "</body></html>")
                 [issue_url CONFIG key]
                 (if comment_count_mismatch fields then [mismatch_record] else []),
               inr tt)).
Proof.
  intros Hk Hkey [He Ho] Hf Hl result. subst result.
  rewrite (legacy_handle_issue_valid_key _ _ _ _ key Hk Hkey).
  unfold Legacy.handle_issue_reply. apply truthy_absent in He as ->.
  unfold expected_format. rewrite Ho. cbn [truthy]. rewrite Hf. cbn [truthy].
  rewrite Hl. cbn [truthy]. split.
  - intros Hpub. by apply indexOf_not_found in Hpub as ->.
  - intros Hpub Hv. apply indexOf_found in Hpub as ->.
    erewrite bind_value by (by apply format_issue_page).
    by destruct (comment_count_mismatch fields).
Qed.

Lemma legacy_handle_issue_label_witness :
  status (run (Legacy.handle_issue Example.Date_parse
                 {| Config.username := lit "u"; Config.password := lit "p";
                    Config.url := {| Url.base := lit "b"; Url.path := lit "/p" |};
                    Config.label := lit "internal"; Config.port := 80%Z |}
                 (Example.JIRA (Example.found
                    (Example.issue (Example.bare_fields (lit "Summary")))))
                 (Example.request (lit "ABC-1"))))
  = Some 200%Z.
Proof.
  destruct (legacy_handle_issue_label Example.Date_parse
              {| Config.username := lit "u"; Config.password := lit "p";
                 Config.url := {| Url.base := lit "b"; Url.path := lit "/p" |};
                 Config.label := lit "internal"; Config.port := 80%Z |}
              (Example.JIRA (Example.found
                 (Example.issue (Example.bare_fields (lit "Summary")))))
              (Example.request (lit "ABC-1")) (lit "ABC-1")
              (Example.issue (Example.bare_fields (lit "Summary")))
              (Example.bare_fields (lit "Summary")) [lit "public"]
              eq_refl ltac:(by apply re_issue_key_spec)
              ltac:(split; [by right | done]) eq_refl eq_refl) as [_ H].
  rewrite H; [done | by apply indexOf_found |].
  split; [by intros r [=] | by intros c [=]].
Defined.



(** X23: the index handler of [jirapub.js] has no template to miss: when the
    search fails it answers with status 500 and no body; when it succeeds
    with a document, it serves the fixed head of the page, one row per issue
    in the order of the results, and the fixed foot; and when it succeeds
    without a document it throws a [TypeError], nothing sent. *)
Theorem inline_handle_issue_index_outcomes CONFIG JIRA req :
  let reply := Jira.search JIRA (search_url CONFIG) in
  let result := run (InlineIndex.handle_issue_index CONFIG JIRA req) in
  (∀ e, Reply.err reply = Val e →
     result = (refused 500 None [search_url CONFIG]
                 [log_record req_log error (lit "error communicating with JIRA")],
               inr tt))
  ∧ (absent (Reply.err reply) →
     ∀ results, Reply.obj reply = Val results →
       result = (served (InlineIndex.page_head
                           ++ concat (map index_row (SearchResults.issues results))
                           ++ InlineIndex.page_foot)
                   [search_url CONFIG]
                   [log_record req_log info (lit "serving issue index")],
                 inr tt))
  ∧ (absent (Reply.err reply) → absent (Reply.obj reply) →
     result = (with_logged [log_record req_log info (lit "serving issue index")]
                 (with_requested [search_url CONFIG] World.init),
               inl TypeError)).
Proof.
  intros reply result. subst result. unfold run, InlineIndex.handle_issue_index.
  erewrite bind_value by reflexivity. fold (search_url CONFIG). fold reply.
  split; [|split].
  - intros e ->. reflexivity.
  - intros He results Ho. apply truthy_absent in He as ->. rewrite Ho.
    erewrite bind_value by reflexivity. cbn [truthy].
    erewrite bind_value by reflexivity.
    rewrite index_rows_spec, <- app_assoc. reflexivity.
  - intros He Ho. apply truthy_absent in He as ->. apply truthy_absent in Ho as ->.
    erewrite bind_value by reflexivity. reflexivity.
Qed.

Lemma inline_handle_issue_index_outcomes_witness :
  run (InlineIndex.handle_issue_index Example.CONFIG
         (Example.search_JIRA Sample.two_results)
         (Example.request (lit "index.html")))
  = (served (InlineIndex.page_head
               ++ concat (map index_row (SearchResults.issues Sample.two_results))
               ++ InlineIndex.page_foot)
       [search_url Example.CONFIG]
       [log_record req_log info (lit "serving issue index")],
     inr tt).
Proof.
  destruct (inline_handle_issue_index_outcomes Example.CONFIG
              (Example.search_JIRA Sample.two_results)
              (Example.request (lit "index.html"))) as (_ & H & _).
  apply H; [by right | done].
Defined.
